(** * doomscroll: extraction, ranking and spaced-repetition core

    A shallow embedding of the parts of the doomscroll pipeline that
    decide which code blocks become learning cards and in which order the
    cards are reviewed:
    - [src/lib/repetition.ts]        [buildQueue], [getSeenDots]
    - [src/unnamed/part_007]         both versions of [useCardDeck]: the review
                                     reducer ([swipeRight], [swipeLeft],
                                     [swipeUp]), the queue, the mastered count,
                                     [restart] and [storageKey]
    - [src/lib/recent.ts]            [getRecent], [addRecent]
    - [src/unnamed/part_001]         [parseRepoInput], [filterCodeFiles],
                                     [fetchFiles]
    - [src/unnamed/part_003]         [extractBraceBlock], [extractIndentBlock],
                                     [findJsDoc], [findRustDoc],
                                     [findPyDocstring], [extractBlocks],
                                     [rankBlocks], [detectLanguage]
    - [src/lib/generate.ts]          [estimateDifficulty], [generateCards]
    - [src/unnamed/part_005]         [ingestRepo]

    JavaScript numbers that only ever hold integers (timestamps, counters,
    line counts, scores) are modelled as [Z]; a [Record<string, T>] used
    as a map is a [gmap string T]; a JavaScript string is a Rocq [string]
    or, where the code scans it character by character, a [list ascii]. *)

From Stdlib Require Import ZArith List String Ascii Bool Lia.
From Stdlib Require Import Sorting.Permutation Sorting.Sorted.
From stdpp Require Import base gmap strings list pretty.

Import ListNotations.
Open Scope Z_scope.

(* ================================================================= *)
(** ** Data model ([src/types], [src/unnamed/part_003]) *)

(** [BlockType = "function" | "type" | "concept" | "pattern" | "file"] *)
Inductive BlockType := BFunction | BType | BConcept | BPattern | BFile.

Definition BlockType_eqb (a b : BlockType) : bool :=
  match a, b with
  | BFunction, BFunction | BType, BType | BConcept, BConcept
  | BPattern, BPattern | BFile, BFile => true
  | _, _ => false
  end.

(** The string a [BlockType] stands for in the source. *)
Definition BlockType_str (t : BlockType) : string :=
  match t with
  | BFunction => "function" | BType => "type" | BConcept => "concept"
  | BPattern => "pattern" | BFile => "file"
  end.

(** The [language] of a block or card: what [detectLanguage] returns. Its
    table is an object literal, so [map[ext]] is either one of its
    strings or, for an extension that names an inherited member of
    [Object.prototype] ([constructor], [toString], [__proto__], ...),
    that member (a function, or the prototype object itself), which
    [?? "text"] keeps since it is neither [null] nor [undefined]. *)
Inductive LangValue := LStr (s : string) | LProto (member : string).
Coercion LStr : string >-> LangValue.

(** [lang === s] for a string literal [s]. *)
Definition lang_eqb (v : LangValue) (s : string) : bool :=
  match v with LStr t => String.eqb t s | LProto _ => false end.

(** [interface ExtractedBlock]; [jsDoc: string | null] is an option. *)
Record ExtractedBlock := {
  eb_name : string;
  eb_type : BlockType;
  eb_code : string;
  eb_filePath : string;
  eb_language : LangValue;
  eb_jsDoc : option string;
  eb_lineCount : Z
}.

(** [CodeCard] as built by [generateCards]. *)
Record CodeCard := {
  id : string;
  card_type : BlockType;
  title : string;
  filePath : string;
  code : string;
  language : LangValue;
  explanation : string;
  difficulty : Z
}.

(** [CardProgress]: [seen] is the consecutive-confirm counter. *)
Record CardProgress := {
  cardId : string;
  seen : Z;
  mastered : bool;
  lastSeen : Z
}.

(* ================================================================= *)
(** ** Review-state reducer ([src/unnamed/part_007], [useCardDeck]) *)

Module Deck.

(** The React state of [useCardDeck] that the swipe handlers touch. *)
Record DeckState := {
  progress : gmap string CardProgress;
  lastSwipedId : option string;
  justMasteredCard : option CodeCard
}.

(** The [setProgress] updater of [swipeRight] for card [card] at time
    [now]: the new progress map, and whether the updater calls
    [setJustMasteredCard(card)] (the mastery signal). *)
Definition swipeRight_update (card : CodeCard) (now : Z)
    (prev : gmap string CardProgress) : gmap string CardProgress * bool :=
  let i := id card in
  let seen' := match prev !! i with Some p => seen p | None => 0 end + 1 in
  let wasMastered := match prev !! i with Some p => mastered p | None => false end in
  let isMastered := Z.geb seen' 3 in
  (<[i := {| cardId := i; seen := seen'; mastered := isMastered; lastSeen := now |}]> prev,
   isMastered && negb wasMastered).

(** [swipeRight] on the current card [card]. *)
Definition swipeRight (card : CodeCard) (now : Z) (d : DeckState) : DeckState * bool :=
  let '(p', signal) := swipeRight_update card now (progress d) in
  ({| progress := p'; lastSwipedId := Some (id card);
      justMasteredCard := if signal then Some card else justMasteredCard d |},
   signal).

(** [swipeLeft] on the current card [card]: reset the counter. *)
Definition swipeLeft (card : CodeCard) (now : Z) (d : DeckState) : DeckState :=
  let i := id card in
  {| progress := <[i := {| cardId := i; seen := 0; mastered := false; lastSeen := now |}]>
                   (progress d);
     lastSwipedId := Some i;
     justMasteredCard := justMasteredCard d |}.

(** [swipeUp] (skip): only [lastSwipedId] changes. *)
Definition swipeUp (card : CodeCard) (d : DeckState) : DeckState :=
  {| progress := progress d; lastSwipedId := Some (id card);
     justMasteredCard := justMasteredCard d |}.

(** The three review actions: confirm (right), reject (left), skip (up). *)
Inductive Action := Confirm | Reject | Skip.

(** One review action on card [card] at time [now]; the boolean is the
    mastery signal (only [swipeRight] can raise it). *)
Definition step (card : CodeCard) (now : Z) (a : Action) (d : DeckState)
    : DeckState * bool :=
  match a with
  | Confirm => swipeRight card now d
  | Reject => (swipeLeft card now d, false)
  | Skip => (swipeUp card d, false)
  end.

(** Run a sequence of timed actions, each on the given card, and record
    after each one the card's review entry and the mastery signal. *)
Fixpoint trace (acts : list (CodeCard * Action * Z)) (d : DeckState)
    : list (option CardProgress * bool) :=
  match acts with
  | [] => []
  | (c, a, t) :: rest =>
      let '(d', sig) := step c t a d in
      (progress d' !! id c, sig) :: trace rest d'
  end.

(** The final state after a sequence of timed actions. *)
Fixpoint run (acts : list (CodeCard * Action * Z)) (d : DeckState) : DeckState :=
  match acts with
  | [] => d
  | (c, a, t) :: rest => run rest (fst (step c t a d))
  end.

(** Number of mastery signals raised along a sequence of actions. *)
Definition signals (acts : list (CodeCard * Action * Z)) (d : DeckState) : nat :=
  length (List.filter snd (trace acts d)).

(** A sample card and an empty deck (the state after load or
    [restart]), used to evaluate the reducer. *)
Definition demo_card : CodeCard :=
  {| id := "gen-0-add"; card_type := BFunction; title := "add"; filePath := "src/math.ts";
     code := "export function add(a,b) { return a+b }"; language := "typescript";
     explanation := "Exported function in src."; difficulty := 1 |}.

Definition empty_deck : DeckState :=
  {| progress := ∅; lastSwipedId := None; justMasteredCard := None |}.

End Deck.

(* ================================================================= *)
(** ** [Array.prototype.sort] with a key comparator *)

Section JsSort.
Context {A : Type} (key : A -> Z).

(** Stable insertion of [x] before every element whose key is not
    smaller: [x] came first in the input. *)
Fixpoint insert_by (x : A) (l : list A) : list A :=
  match l with
  | [] => [x]
  | y :: l' => if Z.leb (key x) (key y) then x :: y :: l' else y :: insert_by x l'
  end.

(** [Array.prototype.sort] with comparator [(a, b) => key a - key b].
    The sort is stable (ECMAScript 2019), so with a comparator induced
    by an integer key its result is the stable sort by that key. *)
Fixpoint sort_by (l : list A) : list A :=
  match l with
  | [] => []
  | x :: l' => insert_by x (sort_by l')
  end.
End JsSort.

(* ================================================================= *)
(** ** Queue builder ([src/lib/repetition.ts]) *)

Module Queue.


(** [c.id !== justSwipedId], where an absent [justSwipedId] is
    [undefined] and differs from every string. *)
Definition not_just (justSwipedId : option string) (c : CodeCard) : bool :=
  match justSwipedId with
  | Some j => negb (String.eqb (id c) j)
  | None => true
  end.

(** [progress[a.id].lastSeen] *)
Definition lastSeen_of (progress : gmap string CardProgress) (c : CodeCard) : Z :=
  match progress !! id c with Some p => lastSeen p | None => 0 end.

(** [!progress[c.id]] *)
Definition is_unseen (progress : gmap string CardProgress) (c : CodeCard) : bool :=
  match progress !! id c with Some _ => false | None => true end.

(** [p && !p.mastered] *)
Definition is_needsWork (progress : gmap string CardProgress) (c : CodeCard) : bool :=
  match progress !! id c with Some p => negb (mastered p) | None => false end.

(** [p?.mastered] *)
Definition is_mastered (progress : gmap string CardProgress) (c : CodeCard) : bool :=
  match progress !! id c with Some p => mastered p | None => false end.

Definition buildQueue (cards : list CodeCard) (progress : gmap string CardProgress)
    (justSwipedId : option string) : list CodeCard :=
  let unseen := List.filter (is_unseen progress) cards in
  let needsWork :=
    sort_by (lastSeen_of progress)
      (List.filter (fun c => is_needsWork progress c && not_just justSwipedId c) cards) in
  let mastered :=
    sort_by (lastSeen_of progress)
      (List.filter (fun c => is_mastered progress c && not_just justSwipedId c) cards) in
  unseen ++ needsWork ++ mastered.

(** The tier of a card: 0 unseen, 1 needs work, 2 mastered. *)
Definition tier (progress : gmap string CardProgress) (c : CodeCard) : nat :=
  match progress !! id c with
  | None => 0%nat
  | Some p => if mastered p then 2%nat else 1%nat
  end.

(** A card that [buildQueue] leaves out: seen and equal to the card
    acted on last. *)
Definition excluded (progress : gmap string CardProgress)
    (justSwipedId : option string) (c : CodeCard) : bool :=
  negb (is_unseen progress c) && negb (not_just justSwipedId c).

End Queue.

(* ================================================================= *)
(** ** Character-level helpers *)

Module Chars.

Definition is_quote (c : ascii) : bool :=
  Ascii.eqb c "034"%char || Ascii.eqb c "'"%char || Ascii.eqb c "`"%char.

(** [\w] of a JavaScript regular expression: [A-Za-z0-9_]. *)
Definition is_word (c : ascii) : bool :=
  let n := nat_of_ascii c in
  (Nat.leb 48 n && Nat.leb n 57) || (Nat.leb 65 n && Nat.leb n 90) ||
  (Nat.leb 97 n && Nat.leb n 122) || Nat.eqb n 95.

(** [s.includes(sub)] *)
Fixpoint prefixb (p s : list ascii) : bool :=
  match p, s with
  | [], _ => true
  | a :: p', b :: s' => Ascii.eqb a b && prefixb p' s'
  | _ :: _, [] => false
  end.

Fixpoint includes (s sub : list ascii) : bool :=
  prefixb sub s || match s with [] => false | _ :: s' => includes s' sub end.

(** [s.split(sep)] for a one-character separator. *)
Fixpoint split_on (sep : ascii) (s : list ascii) : list (list ascii) :=
  match s with
  | [] => [[]]
  | c :: s' =>
      if Ascii.eqb c sep then [] :: split_on sep s'
      else match split_on sep s' with
           | [] => [[c]]
           | w :: ws => (c :: w) :: ws
           end
  end.

(** [s.split("\n").length] *)
Definition line_count (s : list ascii) : Z :=
  Z.of_nat (length (split_on "010"%char s)).

(** JavaScript white space and line terminators within one byte:
    TAB, LF, VT, FF, CR, SPACE and NO-BREAK SPACE. *)
Definition is_js_space (c : ascii) : bool :=
  let n := nat_of_ascii c in
  (Nat.leb 9 n && Nat.leb n 13) || Nat.eqb n 32 || Nat.eqb n 160.

Fixpoint trim_start (s : list ascii) : list ascii :=
  match s with
  | c :: s' => if is_js_space c then trim_start s' else s
  | [] => []
  end.

(** [s.trim()] *)
Definition trim (s : list ascii) : list ascii :=
  rev (trim_start (rev (trim_start s))).

End Chars.

(* ================================================================= *)
(** ** Brace matcher ([extractBraceBlock], [src/unnamed/part_003]) *)

Module Brace.
Import Chars.

(** Where the scanner of [extractBraceBlock] is: in code, inside a string
    literal opened by quote [q] (the inner [while] loop), or inside such a
    literal right after a backslash (whose next character the inner loop
    consumes unconditionally). *)
Inductive Mode := Code | InStr (q : ascii) | InEsc (q : ascii).

(** The [while (i < source.length)] loop of [extractBraceBlock], one
    character at a time; [i] is the index of the head of [l] in
    [source]. The inner string-skipping loop is unrolled into the modes
    [InStr] and [InEsc]: reaching the end of input inside it ends the
    outer loop too, so [null] is returned. *)
Fixpoint scan (l : list ascii) (m : Mode) (depth : Z) (foundOpen : bool) (i : nat)
    : option nat :=
  match l with
  | [] => None
  | ch :: rest =>
      match m with
      | Code =>
          if Ascii.eqb ch "{"%char then scan rest Code (depth + 1) true (S i)
          else if Ascii.eqb ch "}"%char then
            if foundOpen && Z.eqb (depth - 1) 0 then Some i
            else scan rest Code (depth - 1) foundOpen (S i)
          else if is_quote ch then scan rest (InStr ch) depth foundOpen (S i)
          else scan rest Code depth foundOpen (S i)
      | InStr q =>
          if Ascii.eqb ch q then scan rest Code depth foundOpen (S i)
          else if Ascii.eqb ch "\"%char then scan rest (InEsc q) depth foundOpen (S i)
          else scan rest (InStr q) depth foundOpen (S i)
      | InEsc q => scan rest (InStr q) depth foundOpen (S i)
      end
  end.

(** [extractBraceBlock(source, startIdx)]: [source.slice(startIdx, i + 1)]
    for the index [i] at which the scan returns, else [null]. *)
Definition extractBraceBlock (source : list ascii) (startIdx : nat) : option (list ascii) :=
  match scan (drop startIdx source) Code 0 false startIdx with
  | Some i => Some (take (S i - startIdx) (drop startIdx source))
  | None => None
  end.

(** The scanner state without early return: mode, depth and [foundOpen]
    after reading one character. *)
Definition lex_step (st : Mode * Z * bool) (ch : ascii) : Mode * Z * bool :=
  let '(m, depth, found) := st in
  match m with
  | Code =>
      if Ascii.eqb ch "{"%char then (Code, depth + 1, true)
      else if Ascii.eqb ch "}"%char then (Code, depth - 1, found)
      else if is_quote ch then (InStr ch, depth, found)
      else (Code, depth, found)
  | InStr q =>
      if Ascii.eqb ch q then (Code, depth, found)
      else if Ascii.eqb ch "\"%char then (InEsc q, depth, found)
      else (InStr q, depth, found)
  | InEsc q => (InStr q, depth, found)
  end.

(** The scanner state after reading a whole text from the start state. *)
Definition lex (l : list ascii) : Mode * Z * bool :=
  fold_left lex_step l (Code, 0, false).

(** Reading [ch] in state [st] closes the block: a [}] in code that
    brings the depth back to zero after an opening brace. *)
Definition closes (st : Mode * Z * bool) (ch : ascii) : bool :=
  let '(m, depth, found) := st in
  match m with
  | Code => Ascii.eqb ch "}"%char && found && Z.eqb (depth - 1) 0
  | _ => false
  end.

(** The character at index [k] of [l] closes the block when reading [l]
    from state [st]. *)
Definition closes_from (st : Mode * Z * bool) (l : list ascii) (k : nat) : Prop :=
  exists ch, nth_error l k = Some ch /\ closes (fold_left lex_step (take k l) st) ch = true.

(** The character at index [k] of [d] closes the block begun at the
    start of [d]. *)
Definition closes_at (d : list ascii) (k : nat) : Prop := closes_from (Code, 0, false) d k.

(** The index of the first closing character, if any. *)
Fixpoint first_close (l : list ascii) (st : Mode * Z * bool) : option nat :=
  match l with
  | [] => None
  | ch :: rest => if closes st ch then Some O else option_map S (first_close rest (lex_step st ch))
  end.

End Brace.

(* ================================================================= *)
(** ** Ranker ([rankBlocks], [src/unnamed/part_003]) *)

Module Rank.

(** The dedup key [`${b.name}:${b.type}`]. *)
Definition dedup_key (b : ExtractedBlock) : string :=
  String.append (eb_name b) (String.append ":" (BlockType_str (eb_type b))).

(** [blocks.filter(...)] with the shared [Set<string>] [seen]. *)
Fixpoint unique_go (seen : gset string) (blocks : list ExtractedBlock) : list ExtractedBlock :=
  match blocks with
  | [] => []
  | b :: rest =>
      let key := dedup_key b in
      if bool_decide (key ∈ seen) then unique_go seen rest
      else b :: unique_go ({[key]} ∪ seen) rest
  end.

(** [if (b.jsDoc)]: [null] and the empty string are falsy. *)
Definition truthy_doc (d : option string) : bool :=
  match d with Some s => negb (String.eqb s "") | None => false end.

Definition score (b : ExtractedBlock) : Z :=
  (if (8 <=? eb_lineCount b) && (eb_lineCount b <=? 25) then 10
   else if (4 <=? eb_lineCount b) && (eb_lineCount b <=? 35) then 5 else 0) +
  (if truthy_doc (eb_jsDoc b) then 5 else 0) +
  (if BlockType_eqb (eb_type b) BFunction then 3 else 0) +
  (if BlockType_eqb (eb_type b) BType then 2 else 0).

(** [unique.map(b => ({block: b, score})).sort((a, b) => b.score - a.score)
    .map(s => s.block)]: the comparator is [key a - key b] for the key
    [- score]. *)
Definition rankBlocks (blocks : list ExtractedBlock) : list ExtractedBlock :=
  map fst (sort_by (fun s : ExtractedBlock * Z => - snd s)
             (map (fun b => (b, score b)) (unique_go ∅ blocks))).

(** Deduplication as the spec words it: by the pair (name, kind), the
    first occurrence kept. *)
Fixpoint dedup_pairs (seen : list (string * BlockType)) (blocks : list ExtractedBlock)
    : list ExtractedBlock :=
  match blocks with
  | [] => []
  | b :: rest =>
      if existsb (fun '(n, t) => String.eqb n (eb_name b) && BlockType_eqb t (eb_type b)) seen
      then dedup_pairs seen rest
      else b :: dedup_pairs ((eb_name b, eb_type b) :: seen) rest
  end.

(** Scoring as the spec words it, "doc text present" read as a [jsDoc]
    that is not [null]. *)
Definition spec_score (b : ExtractedBlock) : Z :=
  (if (8 <=? eb_lineCount b) && (eb_lineCount b <=? 25) then 10
   else if (4 <=? eb_lineCount b) && (eb_lineCount b <=? 35) then 5 else 0) +
  (if eb_jsDoc b then 5 else 0) +
  (match eb_type b with BFunction => 3 | BType => 2 | _ => 0 end).

(** Two blocks the TypeScript extractor can produce: a one-line class
    after an empty [/** */] comment ([findJsDoc] returns [""]) and a
    four-line undocumented component. *)
Definition empty_doc_class : ExtractedBlock :=
  {| eb_name := "Store"; eb_type := BConcept; eb_code := "export class Store {}";
     eb_filePath := "src/store.ts"; eb_language := "typescript";
     eb_jsDoc := Some ""; eb_lineCount := 1 |}.

Definition plain_component : ExtractedBlock :=
  {| eb_name := "Badge"; eb_type := BPattern;
     eb_code := "export function Badge() {
  return <b />;
}
";
     eb_filePath := "src/badge.tsx"; eb_language := "typescript";
     eb_jsDoc := None; eb_lineCount := 4 |}.

End Rank.

(* ================================================================= *)
(** ** Card generator ([src/lib/generate.ts]) *)

Module Generate.
Import Chars.

(** The nesting loop of [estimateDifficulty]: returns [maxDepth]. *)
Fixpoint max_depth_go (l : list ascii) (depth maxDepth : Z) : Z :=
  match l with
  | [] => maxDepth
  | ch :: rest =>
      let d1 := if Ascii.eqb ch "{"%char then depth + 1 else depth in
      let d2 := if Ascii.eqb ch "}"%char then d1 - 1 else d1 in
      max_depth_go rest d2 (Z.max maxDepth d2)
  end.

(** [\b] between the previous character (none at the start) and [c]. *)
Definition boundary (prev : option ascii) (c : ascii) : bool :=
  xorb (match prev with Some p => is_word p | None => false end) (is_word c).

(** [code.match(new RegExp(`\\b${name}\\(`, "g"))].length, with the name
    taken literally (every name of a [function] block comes from a [\w+]
    group): the global search tries each position from the left and
    resumes after the end of each match; [skip] counts the characters of
    the last match still to pass. *)
Fixpoint count_matches (pat : list ascii) (prev : option ascii) (skip : nat)
    (s : list ascii) : nat :=
  match s with
  | [] => 0
  | c :: rest =>
      match skip with
      | S k => count_matches pat (Some c) k rest
      | O =>
          if boundary prev c && prefixb pat s
          then S (count_matches pat (Some c) (pred (length pat)) rest)
          else count_matches pat (Some c) O rest
      end
  end.

Definition call_pattern (name : string) : list ascii :=
  list_ascii_of_string name ++ ["("%char].

Definition estimateDifficulty (block : ExtractedBlock) : Z :=
  let code := list_ascii_of_string (eb_code block) in
  let lineCount := eb_lineCount block in
  let c1 := if lineCount >? 20 then 2 else if lineCount >? 10 then 1 else 0 in
  let maxDepth := max_depth_go code 0 0 in
  let c2 := if maxDepth >? 4 then 2 else if maxDepth >? 2 then 1 else 0 in
  let c3 := if includes code ["<"%char] && includes code [">"%char] then 1 else 0 in
  let c4 := if includes code (list_ascii_of_string "async") ||
               includes code (list_ascii_of_string "await") then 1 else 0 in
  let c5 := if BlockType_eqb (eb_type block) BFunction then
              (if Nat.ltb 1 (count_matches (call_pattern (eb_name block)) None O code)
               then 2 else 0)
            else 0 in
  let complexity := c1 + c2 + c3 + c4 + c5 in
  if complexity >=? 4 then 3 else if complexity >=? 2 then 2 else 1.

(** The identifier-boundary occurrences of [pat] in [s], every position
    counted (the spec's "appears as a call site"). *)
Fixpoint occurrences (pat : list ascii) (prev : option ascii) (s : list ascii) : nat :=
  match s with
  | [] => O
  | c :: rest =>
      ((if boundary prev c && prefixb pat s then 1 else 0) + occurrences pat (Some c) rest)%nat
  end.

(** The text after the first occurrence of [c]. *)
Fixpoint after_first (c : ascii) (s : list ascii) : list ascii :=
  match s with
  | [] => []
  | x :: rest => if Ascii.eqb x c then rest else after_first c rest
  end.

(** The difficulty as the spec words it: the recursion bonus needs more
    than one call site of the name inside the function's own body (the
    text after its opening brace). *)
Definition claim_estimateDifficulty (block : ExtractedBlock) : Z :=
  let code := list_ascii_of_string (eb_code block) in
  let lineCount := eb_lineCount block in
  let c1 := if lineCount >? 20 then 2 else if lineCount >? 10 then 1 else 0 in
  let maxDepth := max_depth_go code 0 0 in
  let c2 := if maxDepth >? 4 then 2 else if maxDepth >? 2 then 1 else 0 in
  let c3 := if includes code ["<"%char] && includes code [">"%char] then 1 else 0 in
  let c4 := if includes code (list_ascii_of_string "async") ||
               includes code (list_ascii_of_string "await") then 1 else 0 in
  let body := after_first "{"%char code in
  let c5 := if BlockType_eqb (eb_type block) BFunction then
              (if Nat.ltb 1 (occurrences (call_pattern (eb_name block)) (Some "{"%char) body)
               then 2 else 0)
            else 0 in
  let complexity := c1 + c2 + c3 + c4 + c5 in
  if complexity >=? 4 then 3 else if complexity >=? 2 then 2 else 1.

(** A one-line exported function that calls itself once. *)
Definition recursive_block : ExtractedBlock :=
  {| eb_name := "countdown"; eb_type := BFunction;
     eb_code := "export function countdown(n) { return n ? countdown(n - 1) : 0; }";
     eb_filePath := "src/count.ts"; eb_language := "typescript";
     eb_jsDoc := None; eb_lineCount := 1 |}.

(** [arr.join(sep)] *)
Fixpoint join (sep : list ascii) (ws : list (list ascii)) : list ascii :=
  match ws with
  | [] => []
  | [w] => w
  | w :: ws' => w ++ sep ++ join sep ws'
  end.

Definition sappend (ss : list string) : string := fold_right String.append "" ss.

(** [generateExplanation]: the doc text when truthy, else a template. *)
Definition generateExplanation (block : ExtractedBlock) : string :=
  let doc := match eb_jsDoc block with
             | Some d => if String.eqb d "" then None else Some d
             | None => None
             end in
  match doc with
  | Some d => d
  | None =>
      let dir := string_of_list_ascii
                   (join ["/"%char]
                      (removelast (split_on "/"%char (list_ascii_of_string (eb_filePath block))))) in
      let dirHint := if String.eqb dir "" then "" else String.append " in " dir in
      match eb_type block with
      | BFunction => sappend ["Exported function"; dirHint;
          ". Read the code to understand what "; eb_name block; " does and when you'd use it."]
      | BType => sappend ["Type definition"; dirHint; ". Defines the shape of "; eb_name block;
          " — study the fields and their constraints."]
      | BConcept => sappend ["Class"; dirHint; ". Encapsulates "; eb_name block;
          " — look at the methods and how state is managed."]
      | BPattern => sappend ["Pattern"; dirHint; ". A reusable approach to a recurring problem."]
      | BFile => sappend ["Key file"; dirHint;
          ". Read through to understand the module's responsibilities."]
      end
  end.

(** [MAX_CARDS] *)
Definition MAX_CARDS : nat := 50.

(** [blocks.slice(0, maxCards).map((block, i) => ...)] *)
Fixpoint cards_from (i : nat) (blocks : list ExtractedBlock) : list CodeCard :=
  match blocks with
  | [] => []
  | block :: rest =>
      {| id := sappend ["gen-"; pretty i; "-"; eb_name block];
         card_type := eb_type block;
         title := eb_name block;
         filePath := eb_filePath block;
         code := eb_code block;
         language := eb_language block;
         explanation := generateExplanation block;
         difficulty := estimateDifficulty block |} :: cards_from (S i) rest
  end.

Definition generateCards (blocks : list ExtractedBlock) (maxCards : nat) : list CodeCard :=
  cards_from 0 (take maxCards blocks).

End Generate.

(* ================================================================= *)
(** ** Extraction dispatcher ([extractBlocks], [src/unnamed/part_003]) *)

Module Extract.
Import Chars.

(** [FileContent] from [src/unnamed/part_001]. *)
Record FileContent := { path : string; content : string }.

(** [arr.pop()] on the result of a [split], which is never empty. *)
Definition last_segment (ws : list (list ascii)) : list ascii :=
  List.last ws [].

(** The members an object literal inherits from [Object.prototype]. *)
Definition proto_members : list string :=
  ["constructor"; "__defineGetter__"; "__defineSetter__"; "hasOwnProperty";
   "__lookupGetter__"; "__lookupSetter__"; "isPrototypeOf"; "propertyIsEnumerable";
   "toString"; "valueOf"; "__proto__"; "toLocaleString"].

(** [detectLanguage]: [map[ext] ?? "text"] for the extension table
    [map] and [ext] the text after the last dot; an inherited member
    name reads that member. *)
Definition lang_of_ext (ext : string) : LangValue :=
  if String.eqb ext "ts" then "typescript"
  else if String.eqb ext "tsx" then "typescript"
  else if String.eqb ext "js" then "javascript"
  else if String.eqb ext "jsx" then "javascript"
  else if String.eqb ext "py" then "python"
  else if String.eqb ext "rs" then "rust"
  else if String.eqb ext "go" then "go"
  else if String.eqb ext "swift" then "swift"
  else if String.eqb ext "kt" then "kotlin"
  else if existsb (String.eqb ext) proto_members then LProto ext
  else "text".

Definition detectLanguage (p : string) : LangValue :=
  lang_of_ext (string_of_list_ascii (last_segment (split_on "."%char (list_ascii_of_string p)))).

Section Dispatch.
(** The per-language extractors [extractPython], [extractRust],
    [extractGo], [extractSwift] and [extractTS] of the same file. *)
Variable extractPython extractRust extractGo extractSwift :
  string -> FileContent -> list ExtractedBlock.
Variable extractTS : string -> FileContent -> LangValue -> list ExtractedBlock.

(** The [switch (lang)] of [extractBlocks]. *)
Definition per_language (file : FileContent) : list ExtractedBlock :=
  let lang := detectLanguage (path file) in
  let src := content file in
  if lang_eqb lang "python" then extractPython src file
  else if lang_eqb lang "rust" then extractRust src file
  else if lang_eqb lang "go" then extractGo src file
  else if lang_eqb lang "swift" then extractSwift src file
  else extractTS src file lang.

(** [extractBlocks] with its whole-file fallback. *)
Definition extractBlocks (file : FileContent) : list ExtractedBlock :=
  let lang := detectLanguage (path file) in
  let src := list_ascii_of_string (content file) in
  let blocks := per_language file in
  match blocks with
  | [] =>
      if line_count src <=? 40 then
        let fileName := string_of_list_ascii
                          (last_segment (split_on "/"%char (list_ascii_of_string (path file)))) in
        [{| eb_name := fileName;
            eb_type := BFile;
            eb_code := string_of_list_ascii (trim src);
            eb_filePath := path file;
            eb_language := lang;
            eb_jsDoc := None;
            eb_lineCount := line_count src |}]
      else []
  | _ => blocks
  end.
End Dispatch.

(** Extractors that find nothing, and a small file without declarations. *)
Definition no_blocks (_ : string) (_ : FileContent) : list ExtractedBlock := [].
Definition no_blocks_ts (_ : string) (_ : FileContent) (_ : LangValue) : list ExtractedBlock := [].
Definition notes_file : FileContent :=
  {| path := "docs/notes.txt"; content := "just some prose
with no declarations
" |}.

End Extract.

(* ================================================================= *)
(** ** Ingestion pipeline ([ingestRepo], [src/unnamed/part_005]) *)

Module Ingest.

(** A promise that resolves with a value or rejects with an [Error]
    message; the callers in [src/app/index.tsx] show [e.message] to the
    user ([setError(e.message)]). *)
Inductive Result (A : Type) := Ok (a : A) | Err (message : string).
Arguments Ok {A} a.
Arguments Err {A} message.

Section Pipeline.
(** The repository-host client of [src/unnamed/part_001] and the
    per-file extractor. *)
Variable RepoMeta TreeEntry : Type.
Variable defaultBranch : RepoMeta -> string.
Variable entry_path : TreeEntry -> string.
Variable parseRepoInput : string -> option (string * string).
Variable fetchRepo : string -> string -> Result RepoMeta.
Variable fetchTree : string -> string -> string -> Result (list TreeEntry).
Variable filterCodeFiles : list TreeEntry -> list TreeEntry.
Variable fetchFiles : string -> string -> list string -> Result (list Extract.FileContent).
Variable extractBlocks : Extract.FileContent -> list ExtractedBlock.

(** [ingestRepo], the [onStatus] progress reports left out. *)
Definition ingestRepo (input : string) : Result (RepoMeta * list CodeCard) :=
  match parseRepoInput input with
  | None => Err "Invalid repo format. Use owner/repo or a GitHub URL."
  | Some (owner, repo) =>
    match fetchRepo owner repo with
    | Err e => Err e
    | Ok meta =>
      match fetchTree owner repo (defaultBranch meta) with
      | Err e => Err e
      | Ok tree =>
        let codeFiles := filterCodeFiles tree in
        match codeFiles with
        | [] => Err "No supported code files found in this repo."
        | _ =>
          match fetchFiles owner repo (map entry_path codeFiles) with
          | Err e => Err e
          | Ok files =>
            let allBlocks := flat_map extractBlocks files in
            let ranked := Rank.rankBlocks allBlocks in
            match ranked with
            | [] => Err "Couldn't extract any learnable code blocks."
            | _ => Ok (meta, Generate.generateCards ranked Generate.MAX_CARDS)
            end
          end
        end
      end
    end
  end.
End Pipeline.

End Ingest.

(* ================================================================= *)
(** ** The review hook's handlers ([src/unnamed/part_007], [src/lib/repetition.ts]) and the
    recent-repository list ([src/lib/recent.ts]) *)

Module Store.
Import Deck Queue.

(** [storageKey(repoName)]: the per-repository key of the progress map. *)
Definition storageKey (repoName : string) : string :=
  String.append "doomscroll:progress:" repoName.

(** [getSeenDots(progress)] of [src/lib/repetition.ts]. *)
Definition getSeenDots (p : option CardProgress) : bool * bool * bool :=
  match p with
  | None => (false, false, false)
  | Some q => (1 <=? seen q, 2 <=? seen q, 3 <=? seen q)
  end.

(** [Object.values(progress).filter((p) => p.mastered).length] *)
Definition mastered_count (progress : gmap string CardProgress) : nat :=
  length (List.filter mastered (map snd (map_to_list progress))).

(** [mastered >= total && total > 0] *)
Definition allMastered (cards : list CodeCard) (progress : gmap string CardProgress) : bool :=
  Nat.leb (length cards) (mastered_count progress) && Nat.ltb 0 (length cards).

(** [useMemo(() => buildQueue(cards, progress, lastSwipedId))] *)
Definition queue (cards : list CodeCard) (d : DeckState) : list CodeCard :=
  buildQueue cards (progress d) (lastSwipedId d).

(** [queue[0] ?? null] and [queue[1] ?? null] *)
Definition currentCard (cards : list CodeCard) (d : DeckState) : option CodeCard :=
  head (queue cards d).
Definition nextCard (cards : list CodeCard) (d : DeckState) : option CodeCard :=
  nth_error (queue cards d) 1.

(** The handlers the hook returns, with their guard
    [if (!currentCard) return;]. *)
Definition handleSwipeRight (cards : list CodeCard) (now : Z) (d : DeckState)
    : DeckState * bool :=
  match currentCard cards d with
  | None => (d, false)
  | Some c => swipeRight c now d
  end.

Definition handleSwipeLeft (cards : list CodeCard) (now : Z) (d : DeckState) : DeckState :=
  match currentCard cards d with
  | None => d
  | Some c => swipeLeft c now d
  end.

Definition handleSwipeUp (cards : list CodeCard) (d : DeckState) : DeckState :=
  match currentCard cards d with
  | None => d
  | Some c => swipeUp c d
  end.

(** [clearJustMastered] *)
Definition clearJustMastered (d : DeckState) : DeckState :=
  {| progress := progress d; lastSwipedId := lastSwipedId d; justMasteredCard := None |}.

(** [restart]: empty progress and no last-swiped card (the storage
    removal is not part of the state). *)
Definition restart (d : DeckState) : DeckState :=
  {| progress := ∅; lastSwipedId := None; justMasteredCard := justMasteredCard d |}.

End Store.

(** The second [useCardDeck] of [src/unnamed/part_007] (lines 195-304):
    the same [swipeRight] and [swipeUp], but [swipeLeft] adds one to
    [seen] instead of resetting it. *)
Module StoreV2.
Import Deck.

Definition swipeLeft (card : CodeCard) (now : Z) (d : DeckState) : DeckState :=
  let i := id card in
  {| progress := <[i := {| cardId := i;
                           seen := match progress d !! i with Some p => seen p | None => 0 end + 1;
                           mastered := false;
                           lastSeen := now |}]> (progress d);
     lastSwipedId := Some i;
     justMasteredCard := justMasteredCard d |}.

Definition step (card : CodeCard) (now : Z) (a : Action) (d : DeckState) : DeckState * bool :=
  match a with
  | Confirm => swipeRight card now d
  | Reject => (swipeLeft card now d, false)
  | Skip => (swipeUp card d, false)
  end.

Fixpoint run (acts : list (CodeCard * Action * Z)) (d : DeckState) : DeckState :=
  match acts with
  | [] => d
  | (c, a, t) :: rest => run rest (fst (step c t a d))
  end.

(** The confirms and rejects on cards with id [k], in order. *)
Definition rated (k : string) (acts : list (CodeCard * Action * Z)) : list Action :=
  map (fun x => snd (fst x))
    (List.filter (fun x => String.eqb (id (fst (fst x))) k &&
                           match snd (fst x) with Skip => false | _ => true end) acts).

End StoreV2.

(** [src/lib/recent.ts]: the recently ingested repositories. *)
Module Recent.

Record RecentRepo := {
  r_owner : string;
  r_repo : string;
  fullName : string;
  r_description : string;
  r_stars : Z;
  r_cardCount : Z;
  lastVisited : Z
}.

(** [Omit<RecentRepo, "lastVisited">] *)
Record RecentEntry := {
  e_owner : string;
  e_repo : string;
  e_fullName : string;
  e_description : string;
  e_stars : Z;
  e_cardCount : Z
}.

Definition MAX : nat := 8.

(** The stored list under [KEY]; [None] when the key is absent.
    [getRecent] reads it back ([JSON.parse] of what [JSON.stringify]
    wrote) and falls back to [[]]. *)
Definition getRecent (stored : option (list RecentRepo)) : list RecentRepo :=
  match stored with Some l => l | None => [] end.

(** [{ ...entry, lastVisited: Date.now() }] *)
Definition stamp (e : RecentEntry) (now : Z) : RecentRepo :=
  {| r_owner := e_owner e; r_repo := e_repo e; fullName := e_fullName e;
     r_description := e_description e; r_stars := e_stars e;
     r_cardCount := e_cardCount e; lastVisited := now |}.

(** [addRecent(entry)]: the new stored list. *)
Definition addRecent (stored : option (list RecentRepo)) (entry : RecentEntry) (now : Z)
    : option (list RecentRepo) :=
  let list := getRecent stored in
  let filtered := List.filter (fun r => negb (String.eqb (fullName r) (e_fullName entry))) list in
  Some (take MAX (stamp entry now :: filtered)).

End Recent.

(* ================================================================= *)
(** ** GitHub client ([src/unnamed/part_001]) *)

Module GitHub.
Import Chars Extract.

(** [TreeEntry] of [src/unnamed/part_001]. *)
Record TreeEntry := { te_path : string; te_type : string; te_size : option Z }.

Definition is_slash (c : ascii) : bool := Ascii.eqb c "/"%char.

Fixpoint take_while (p : ascii -> bool) (l : list ascii) : list ascii :=
  match l with
  | c :: l' => if p c then c :: take_while p l' else []
  | [] => []
  end.

Fixpoint drop_slashes (l : list ascii) : list ascii :=
  match l with
  | c :: l' => if is_slash c then drop_slashes l' else l
  | [] => []
  end.

(** [.replace(/\/+$/, "")]: the leftmost match of [\/+$] is the whole
    trailing run of slashes. *)
Definition strip_trailing_slashes (s : list ascii) : list ascii :=
  rev (drop_slashes (rev s)).

(** [([^/]+)]: greedy; followed by [\/] or the end of the pattern, only
    the longest run can be followed by what comes next. *)
Definition seg (t : list ascii) : list ascii := take_while (fun c => negb (is_slash c)) t.

(** [github\.com\/([^/]+)\/([^/]+)] at the start of [t]. *)
Definition url_groups (t : list ascii) : option (list ascii * list ascii) :=
  if prefixb (list_ascii_of_string "github.com/") t then
    let t1 := drop 11 t in
    let g1 := seg t1 in
    match g1, drop (length g1) t1 with
    | _ :: _, c :: t2 =>
        if is_slash c then
          match seg t2 with
          | [] => None
          | g2 => Some (g1, g2)
          end
        else None
    | _, _ => None
    end
  else None.

(** [(?:https?:\/\/)?github\.com\/([^/]+)\/([^/]+)] at the start of [s]:
    the optional group is tried first, with [s] and then without. *)
Definition url_at (s : list ascii) : option (list ascii * list ascii) :=
  match (if prefixb (list_ascii_of_string "https://") s then url_groups (drop 8 s) else None) with
  | Some g => Some g
  | None =>
      match (if prefixb (list_ascii_of_string "http://") s then url_groups (drop 7 s) else None) with
      | Some g => Some g
      | None => url_groups s
      end
  end.

(** [String.prototype.match] without the [g] flag: the leftmost start. *)
Fixpoint url_match (s : list ascii) : option (list ascii * list ascii) :=
  match url_at s with
  | Some g => Some g
  | None => match s with [] => None | _ :: s' => url_match s' end
  end.

(** [[^/\s]] *)
Definition short_ok (c : ascii) : bool := negb (is_slash c) && negb (is_js_space c).

(** [^([^/\s]+)\/([^/\s]+)$] *)
Definition short_match (s : list ascii) : option (list ascii * list ascii) :=
  let g1 := take_while short_ok s in
  match g1, drop (length g1) s with
  | _ :: _, c :: (_ :: _) as r => if is_slash c && forallb short_ok r then Some (g1, r) else None
  | _, _ => None
  end.

(** [parseRepoInput(input)] *)
Definition parseRepoInput (input : string) : option (string * string) :=
  let trimmed := strip_trailing_slashes (trim (list_ascii_of_string input)) in
  match url_match trimmed with
  | Some (o, r) => Some (string_of_list_ascii o, string_of_list_ascii r)
  | None =>
      match short_match trimmed with
      | Some (o, r) => Some (string_of_list_ascii o, string_of_list_ascii r)
      | None => None
      end
  end.

(** [CODE_EXTENSIONS] *)
Definition CODE_EXTENSIONS : list string :=
  [".ts"; ".tsx"; ".js"; ".jsx"; ".py"; ".rs"; ".go"; ".swift"; ".kt"].

(** The predicate of [filterCodeFiles]. *)
Definition keep_entry (entry : TreeEntry) : bool :=
  let p := list_ascii_of_string (te_path entry) in
  let ext := String.append "." (string_of_list_ascii (last_segment (split_on "."%char p))) in
  if negb (existsb (String.eqb ext) CODE_EXTENSIONS) then false
  else if includes p (list_ascii_of_string "__tests__") then false
  else if includes p (list_ascii_of_string ".test.") then false
  else if includes p (list_ascii_of_string ".spec.") then false
  else if includes p (list_ascii_of_string "node_modules") then false
  else if includes p (list_ascii_of_string ".d.ts") then false
  else if includes p (list_ascii_of_string "dist/") then false
  else if includes p (list_ascii_of_string "build/") then false
  else match te_size entry with
       | Some n => if negb (Z.eqb n 0) && (50000 <? n) then false else true
       | None => true
       end.

Definition filterCodeFiles (tree : list TreeEntry) : list TreeEntry :=
  List.filter keep_entry tree.

(** [.filter((f) => f !== null)] *)
Fixpoint filter_some {A : Type} (l : list (option A)) : list A :=
  match l with
  | [] => []
  | Some x :: l' => x :: filter_some l'
  | None :: l' => filter_some l'
  end.

Section Fetch.
(** One contents request: the decoded text of the file, or [null] when
    the response is not ok, not base64, or anything throws. *)
Variable fetch_one : string -> string -> string -> option string.

Definition fetch_path (owner repo path : string) : option FileContent :=
  match fetch_one owner repo path with
  | Some c => Some {| Extract.path := path; content := c |}
  | None => None
  end.

(** [for (let i = 0; i < selected.length; i += 8)], with [fuel] bounding
    the number of rounds. *)
Fixpoint batch_loop (owner repo : string) (fuel i : nat) (selected : list string)
    (results : list FileContent) : list FileContent :=
  match fuel with
  | O => results
  | S fuel' =>
      if Nat.ltb i (length selected) then
        let batch := take 8 (drop i selected) in
        batch_loop owner repo fuel' (i + 8) selected
          (results ++ filter_some (map (fetch_path owner repo) batch))
      else results
  end.

(** [fetchFiles(owner, repo, paths, maxFiles)] *)
Definition fetchFiles (owner repo : string) (paths : list string) (maxFiles : nat)
    : list FileContent :=
  let selected := take maxFiles paths in
  batch_loop owner repo (length selected) 0 selected [].

End Fetch.

End GitHub.

(* ================================================================= *)
(** ** Doc comments and Python blocks ([src/unnamed/part_003]) *)

Module Doc.
Import Chars Generate GitHub.

(** [s.trimEnd()] *)
Definition trim_end (s : list ascii) : list ascii := rev (trim_start (rev s)).

(** The length of the leading white space of [line], the first group
    of the [match] in [extractIndentBlock]. *)
Definition indent (line : list ascii) : nat := length (take_while is_js_space line).

(** The [for] loop of [extractIndentBlock] from [i = 1]: blank lines are
    kept, the first line indented less than [baseIndent] ends the block. *)
Fixpoint indent_loop (baseIndent : nat) (lines : list (list ascii)) : list (list ascii) :=
  match lines with
  | [] => []
  | line :: rest =>
      match trim line with
      | [] => line :: indent_loop baseIndent rest
      | _ :: _ =>
          if Nat.ltb (indent line) baseIndent then []
          else line :: indent_loop baseIndent rest
      end
  end.

(** [extractIndentBlock(source, startIdx)] *)
Definition extractIndentBlock (source : list ascii) (startIdx : nat) : option (list ascii) :=
  match split_on "010"%char (drop startIdx source) with
  | [] | [_] => None
  | l0 :: ((l1 :: _) as rest) =>
      let baseIndent := indent l1 in
      if Nat.eqb baseIndent 0 then Some l0
      else Some (trim_end (join ["010"%char] (l0 :: indent_loop baseIndent rest)))
  end.

(** [source.slice(Math.max(0, pos - 500), pos)] *)
Definition window (source : list ascii) (pos : nat) : list ascii :=
  take (pos - (pos - 500)) (drop (pos - 500) source).

(** [\s*([\s\S]*?)\s*\*\/\s*$] after the opening [/**]: the text must
    end, up to white space, in [*/]; the lazy group, between the two
    white-space runs, is the trimmed text before it. *)
Definition jsdoc_body (r : list ascii) : option (list ascii) :=
  match trim_start (rev r) with
  | "/"%char :: "*"%char :: rm => Some (trim (rev rm))
  | _ => None
  end.

(** [before.match(/\/\*\*\s*([\s\S]*?)\s*\*\/\s*$/)]: the leftmost start. *)
Fixpoint jsdoc_match (s : list ascii) : option (list ascii) :=
  match (if prefixb (list_ascii_of_string "/**") s then jsdoc_body (drop 3 s) else None) with
  | Some g => Some g
  | None => match s with [] => None | _ :: s' => jsdoc_match s' end
  end.

(** [l.replace(/^\s*\*\s?/, "")] *)
Definition strip_star (l : list ascii) : list ascii :=
  match trim_start l with
  | "*"%char :: l2 =>
      match l2 with
      | c :: l3 => if is_js_space c then l3 else l2
      | [] => []
      end
  | _ => l
  end.

Definition nonempty (l : list ascii) : bool := match l with [] => false | _ => true end.

(** [.split("\n").map((l) => l.replace(...).trim()).filter(Boolean).join(" ")] *)
Definition clean_doc (g : list ascii) : list ascii :=
  join [" "%char] (List.filter nonempty (map (fun l => trim (strip_star l)) (split_on "010"%char g))).

(** [findJsDoc(source, pos)] *)
Definition findJsDoc (source : list ascii) (pos : nat) : option (list ascii) :=
  let before := trim_end (window source pos) in
  match jsdoc_match before with
  | Some g => Some (clean_doc g)
  | None => None
  end.

(** [.]: any character but a line terminator. *)
Definition not_eol (c : ascii) : bool := negb (Ascii.eqb c "010"%char || Ascii.eqb c "013"%char).

(** Group 1 of the match of a line against the doc-line pattern of
    [findRustDoc]: white space, three slashes, at most one white-space
    character, then everything up to a line terminator. *)
Definition rust_doc_line (line : list ascii) : option (list ascii) :=
  let t := trim_start line in
  if prefixb (list_ascii_of_string "///") t then
    let r := drop 3 t in
    let r' := match r with c :: r2 => if is_js_space c then r2 else r | [] => [] end in
    Some (take_while not_eol r')
  else None.

(** The loop over [before.split("\n").reverse()]: [unshift] each doc
    line, [break] at the first other line. *)
Fixpoint rust_doc_lines (revLines : list (list ascii)) : list (list ascii) :=
  match revLines with
  | [] => []
  | line :: rest =>
      match rust_doc_line line with
      | Some m => rust_doc_lines rest ++ [m]
      | None => []
      end
  end.

(** [findRustDoc(source, pos)] *)
Definition findRustDoc (source : list ascii) (pos : nat) : option (list ascii) :=
  let before := trim_end (window source pos) in
  match rust_doc_lines (rev (split_on "010"%char before)) with
  | [] => None
  | docLines => Some (join [" "%char] docLines)
  end.

Definition triple_quote : list ascii := ["034"%char; "034"%char; "034"%char].

(** The lazy group of [findPyDocstring]: the text up to the first
    closing triple quote. *)
Fixpoint up_to_close (r : list ascii) : option (list ascii) :=
  if prefixb triple_quote r then Some []
  else match r with
       | [] => None
       | c :: r' => match up_to_close r' with Some g => Some (c :: g) | None => None end
       end.

(** [findPyDocstring(source, defEnd)] *)
Definition findPyDocstring (source : list ascii) (defEnd : nat) : option (list ascii) :=
  let after := take 500 (drop defEnd source) in
  let t := trim_start after in
  if prefixb triple_quote t then
    match up_to_close (drop 3 t) with
    | Some g => Some (trim g)
    | None => None
    end
  else None.

End Doc.

(* ================================================================= *)
(** ** The wired pipeline ([src/unnamed/part_005]) *)

(** [ingestRepo] with the client of [src/unnamed/part_001] and the
    extractor plugged in: [fetchFiles(owner, repo, paths)] with its
    default [maxFiles = 40] never rejects. The metadata and tree requests
    and the per-file contents request stay parameters. *)
Module Wiring.
Import Ingest.

Definition ingestRepo_github {RepoMeta : Type} (defaultBranch : RepoMeta -> string)
    (fetchRepo : string -> string -> Result RepoMeta)
    (fetchTree : string -> string -> string -> Result (list GitHub.TreeEntry))
    (fetch_one : string -> string -> string -> option string)
    (extractPython extractRust extractGo extractSwift :
       string -> Extract.FileContent -> list ExtractedBlock)
    (extractTS : string -> Extract.FileContent -> LangValue -> list ExtractedBlock)
    (input : string) : Result (RepoMeta * list CodeCard) :=
  ingestRepo RepoMeta GitHub.TreeEntry defaultBranch GitHub.te_path GitHub.parseRepoInput
    fetchRepo fetchTree GitHub.filterCodeFiles
    (fun owner repo paths => Ok (GitHub.fetchFiles fetch_one owner repo paths 40))
    (Extract.extractBlocks extractPython extractRust extractGo extractSwift extractTS) input.

(** A repository with one small TypeScript file. *)
Definition demo_tree (owner repo branch : string) : Result (list GitHub.TreeEntry) :=
  Ok [{| GitHub.te_path := "src/add.ts"; GitHub.te_type := "blob"; GitHub.te_size := Some 48 |}].

Definition demo_contents (owner repo path : string) : option string :=
  Some "export const add = (a: number, b: number) => a + b;".

Definition demo_ingest (input : string) : Result (unit * list CodeCard) :=
  ingestRepo_github (fun _ => "main") (fun _ _ => Ok tt) demo_tree demo_contents
    Extract.no_blocks Extract.no_blocks Extract.no_blocks Extract.no_blocks Extract.no_blocks_ts
    input.

Definition demo_cards : list CodeCard :=
  match demo_ingest "vercel/next.js" with Ok (_, cards) => cards | Err _ => [] end.

End Wiring.

(* ================================================================= *)
(** * Properties *)

(* ----------------------------------------------------------------- *)
(** ** Review-state reducer *)

Module DeckFacts.
Import Deck.

(** The entry a confirm writes, and its signal. *)
Lemma swipeRight_entry (c : CodeCard) (now : Z) (d : DeckState) :
  progress (fst (swipeRight c now d)) !! id c =
    Some {| cardId := id c;
            seen := match progress d !! id c with Some p => seen p | None => 0 end + 1;
            mastered := Z.geb (match progress d !! id c with Some p => seen p | None => 0 end + 1) 3;
            lastSeen := now |} /\
  snd (swipeRight c now d) =
    Z.geb (match progress d !! id c with Some p => seen p | None => 0 end + 1) 3 &&
    negb (match progress d !! id c with Some p => mastered p | None => false end).
Proof.
  unfold swipeRight, swipeRight_update; simpl.
  split; [by rewrite lookup_insert_eq | reflexivity].
Qed.

Lemma swipeLeft_entry (c : CodeCard) (now : Z) (d : DeckState) :
  progress (swipeLeft c now d) !! id c =
    Some {| cardId := id c; seen := 0; mastered := false; lastSeen := now |}.
Proof. unfold swipeLeft; simpl. by rewrite lookup_insert_eq. Qed.

(** Every action leaves the entries of the other cards alone. *)
Lemma step_other (c : CodeCard) (now : Z) (a : Action) (d : DeckState) (k : string) :
  k <> id c -> progress (fst (step c now a d)) !! k = progress d !! k.
Proof.
  intros Hk. destruct a; simpl.
  - unfold swipeRight, swipeRight_update; simpl. by rewrite lookup_insert_ne.
  - unfold swipeLeft; simpl. by rewrite lookup_insert_ne.
  - reflexivity.
Qed.

(** The review invariant of a progress map. *)
Definition review_inv (pm : gmap string CardProgress) : Prop :=
  forall k p, pm !! k = Some p -> (mastered p = true <-> 3 <= seen p).

Lemma step_inv (c : CodeCard) (now : Z) (a : Action) (d : DeckState) :
  review_inv (progress d) -> review_inv (progress (fst (step c now a d))).
Proof.
  intros Hinv k p Hk.
  destruct (decide (k = id c)) as [->|Hne].
  - destruct a.
    + destruct (swipeRight_entry c now d) as [He _]. unfold step in Hk.
      rewrite He in Hk. injection Hk as <-. simpl.
      rewrite Z.geb_le. lia.
    + unfold step, fst in Hk. rewrite swipeLeft_entry in Hk. injection Hk as <-. simpl.
      split; [discriminate | lia].
    + simpl in Hk. exact (Hinv _ _ Hk).
  - rewrite step_other in Hk by exact Hne. exact (Hinv _ _ Hk).
Qed.

Lemma run_inv (acts : list (CodeCard * Action * Z)) (d : DeckState) :
  review_inv (progress d) -> review_inv (progress (run acts d)).
Proof.
  revert d; induction acts as [|[[c a] t] acts IH]; intros d H; simpl.
  - exact H.
  - apply IH, step_inv, H.
Qed.

End DeckFacts.

Module DeckClaims.
Import Deck DeckFacts.

(** C1: for a card with no review state, each confirm adds exactly one
    to the consecutive-confirm counter; confirms 1 to 4 give counters
    1, 2, 3, 4 with [mastered] false, false, true, true and a mastery
    signal on the third confirm only; a following reject gives counter 0
    and [mastered] false. *)
Theorem confirm_trace_masters_on_third (c : CodeCard) (d : DeckState) (t1 t2 t3 t4 t5 : Z)
    (Hnone : progress d !! id c = None) :
  (forall (now : Z) (d' : DeckState), exists p,
      progress (fst (step c now Confirm d')) !! id c = Some p /\
      seen p = match progress d' !! id c with Some q => seen q | None => 0 end + 1) /\
  map (fun '(o, s) => (option_map seen o, option_map mastered o, s))
    (trace [(c, Confirm, t1); (c, Confirm, t2); (c, Confirm, t3);
            (c, Confirm, t4); (c, Reject, t5)] d)
  = [(Some 1, Some false, false); (Some 2, Some false, false);
     (Some 3, Some true, true); (Some 4, Some true, false);
     (Some 0, Some false, false)].
Proof.
  split.
  - intros now d'. destruct (swipeRight_entry c now d') as [He _].
    eexists; split; [exact He | reflexivity].
  - simpl. repeat (rewrite lookup_insert_eq || rewrite Hnone). reflexivity.
Qed.

Lemma confirm_trace_masters_on_third_witness :
  progress empty_deck !! id demo_card = None /\
  map (fun '(o, s) => (option_map seen o, option_map mastered o, s))
    (trace [(demo_card, Confirm, 1); (demo_card, Confirm, 2); (demo_card, Confirm, 3);
            (demo_card, Confirm, 4); (demo_card, Reject, 5)] empty_deck)
  = [(Some 1, Some false, false); (Some 2, Some false, false);
     (Some 3, Some true, true); (Some 4, Some true, false);
     (Some 0, Some false, false)].
Proof.
  split; [reflexivity|].
  apply (confirm_trace_masters_on_third demo_card empty_deck 1 2 3 4 5). reflexivity.
Defined.

(** C3: starting from an empty progress map, every review state reached
    by any sequence of confirm, reject and skip actions (on any cards)
    has [mastered = true] exactly when [seen >= 3]. *)
Theorem reachable_mastered_iff_three (acts : list (CodeCard * Action * Z)) (d : DeckState)
    (Hfresh : progress d = ∅) :
  forall (k : string) (p : CardProgress),
    progress (run acts d) !! k = Some p -> (mastered p = true <-> 3 <= seen p).
Proof.
  apply run_inv. rewrite Hfresh. intros k p Hk. by rewrite lookup_empty in Hk.
Qed.

(** C10: a confirm raises the mastery signal exactly when it turns the
    card's [mastered] flag from false (or no entry) to true; so confirm
    x3, reject, confirm x3 on a card with no entry raises it twice. *)
Theorem mastery_signal_refires (c : CodeCard) (d : DeckState) (t1 t2 t3 t4 t5 t6 t7 : Z)
    (Hnone : progress d !! id c = None) :
  (forall (now : Z) (d' : DeckState),
      snd (step c now Confirm d') = true <->
      match progress d' !! id c with Some p => mastered p | None => false end = false /\
      option_map mastered (progress (fst (step c now Confirm d')) !! id c) = Some true) /\
  signals [(c, Confirm, t1); (c, Confirm, t2); (c, Confirm, t3); (c, Reject, t4);
           (c, Confirm, t5); (c, Confirm, t6); (c, Confirm, t7)] d = 2%nat.
Proof.
  split.
  - intros now d'. destruct (swipeRight_entry c now d') as [He Hs].
    unfold step. rewrite He, Hs. simpl.
    destruct (Z.geb _ 3), (match progress d' !! id c with Some p => mastered p | None => false end);
      simpl; intuition congruence.
  - unfold signals. simpl. repeat (rewrite lookup_insert_eq || rewrite Hnone). reflexivity.
Qed.

Lemma mastery_signal_refires_witness :
  progress empty_deck !! id demo_card = None /\
  signals [(demo_card, Confirm, 1); (demo_card, Confirm, 2); (demo_card, Confirm, 3);
           (demo_card, Reject, 4); (demo_card, Confirm, 5); (demo_card, Confirm, 6);
           (demo_card, Confirm, 7)] empty_deck = 2%nat.
Proof.
  split; [reflexivity|].
  apply (mastery_signal_refires demo_card empty_deck 1 2 3 4 5 6 7). reflexivity.
Defined.

Lemma reachable_mastered_iff_three_witness :
  progress empty_deck = ∅ /\
  exists p : CardProgress,
    progress (run [(demo_card, Confirm, 1); (demo_card, Confirm, 2);
                   (demo_card, Confirm, 3); (demo_card, Skip, 4)] empty_deck)
      !! id demo_card = Some p /\
    (mastered p = true <-> 3 <= seen p).
Proof.
  split; [reflexivity|].
  eexists; split; [vm_compute; reflexivity|].
  apply (reachable_mastered_iff_three
           [(demo_card, Confirm, 1); (demo_card, Confirm, 2);
            (demo_card, Confirm, 3); (demo_card, Skip, 4)] empty_deck
           ltac:(reflexivity) (id demo_card)).
  vm_compute; reflexivity.
Defined.

End DeckClaims.

(* ----------------------------------------------------------------- *)
(** ** The stable key sort *)

Section SortFacts.
Context {A : Type} (key : A -> Z).

Lemma insert_by_perm (x : A) (l : list A) : Permutation (insert_by key x l) (x :: l).
Proof.
  induction l as [|y l IH]; simpl; [reflexivity|].
  destruct (key x <=? key y); [reflexivity|].
  rewrite IH. apply perm_swap.
Qed.

Lemma sort_by_perm (l : list A) : Permutation (sort_by key l) l.
Proof.
  induction l as [|x l IH]; simpl; [reflexivity|].
  rewrite insert_by_perm, IH. reflexivity.
Qed.

Let R (a b : A) : Prop := key a <= key b.

Lemma insert_by_hd (y x : A) (l : list A) :
  HdRel R y l -> R y x -> HdRel R y (insert_by key x l).
Proof.
  intros Hh Hyx. destruct l as [|z l]; simpl.
  - constructor; exact Hyx.
  - destruct (key x <=? key z); constructor; [exact Hyx|].
    inversion Hh; assumption.
Qed.

Lemma insert_by_sorted (x : A) (l : list A) : Sorted R l -> Sorted R (insert_by key x l).
Proof.
  induction l as [|y l IH]; intros Hs; simpl.
  - repeat constructor.
  - destruct (key x <=? key y) eqn:Hxy.
    + constructor; [exact Hs|]. constructor. unfold R. lia.
    + apply Sorted_inv in Hs as [Hs Hh].
      constructor; [exact (IH Hs)|].
      apply insert_by_hd; [exact Hh|]. unfold R. lia.
Qed.

Lemma sort_by_sorted (l : list A) : Sorted R (sort_by key l).
Proof.
  induction l as [|x l IH]; simpl; [constructor|].
  apply insert_by_sorted, IH.
Qed.

(** Stability: among the elements of one key the input order is kept. *)
Lemma insert_by_stable (z : Z) (x : A) (l : list A) :
  List.filter (fun a => key a =? z) (insert_by key x l) =
  List.filter (fun a => key a =? z) (x :: l).
Proof.
  induction l as [|y l IH]; simpl; [reflexivity|].
  destruct (key x <=? key y) eqn:Hxy; [reflexivity|].
  simpl. simpl in IH. rewrite IH.
  destruct (key x =? z) eqn:Hx, (key y =? z) eqn:Hy; try reflexivity; lia.
Qed.

Lemma sort_by_stable (z : Z) (l : list A) :
  List.filter (fun a => key a =? z) (sort_by key l) = List.filter (fun a => key a =? z) l.
Proof.
  induction l as [|x l IH]; simpl; [reflexivity|].
  rewrite insert_by_stable. simpl. rewrite IH. reflexivity.
Qed.

Lemma sort_by_forall (P : A -> Prop) (l : list A) : Forall P l -> Forall P (sort_by key l).
Proof.
  intros H. eapply Permutation_Forall; [|exact H]. symmetry. apply sort_by_perm.
Qed.
End SortFacts.

(** A list that is strongly sorted has every earlier element related to
    every later one. *)
Lemma StronglySorted_split {A : Type} (R : A -> A -> Prop) (l1 l2 l3 : list A) (a b : A) :
  StronglySorted R (l1 ++ a :: l2 ++ b :: l3) -> R a b.
Proof.
  induction l1 as [|x l1 IH]; simpl; intros H.
  - apply StronglySorted_inv in H as [_ HF].
    rewrite List.Forall_forall in HF. apply HF. apply in_or_app. right. left. reflexivity.
  - apply StronglySorted_inv in H as [H _]. exact (IH H).
Qed.

Lemma StronglySorted_app {A : Type} (R : A -> A -> Prop) (l1 l2 : list A) :
  StronglySorted R l1 -> StronglySorted R l2 ->
  (forall x y, In x l1 -> In y l2 -> R x y) -> StronglySorted R (l1 ++ l2).
Proof.
  induction l1 as [|x l1 IH]; simpl; intros H1 H2 H12; [exact H2|].
  apply StronglySorted_inv in H1 as [H1 Hx].
  constructor.
  - apply IH; auto.
  - apply Forall_app; split; [exact Hx|].
    apply List.Forall_forall. intros y Hy. apply H12; auto.
Qed.

Lemma StronglySorted_const {A : Type} (f : A -> nat) (n : nat) (l : list A) :
  Forall (fun x => f x = n) l -> StronglySorted (fun a b => (f a <= f b)%nat) l.
Proof.
  induction l as [|x l IH]; intros H; [constructor|].
  apply Forall_cons_iff in H as [Hx H].
  constructor; [exact (IH H)|].
  eapply Forall_impl; [exact H|]. simpl. intros y Hy. lia.
Qed.

(* ----------------------------------------------------------------- *)
(** ** Queue builder *)

Module QueueFacts.
Import Queue.

Lemma filter_all_true {A : Type} (P : A -> bool) (l : list A) :
  Forall (fun x => P x = true) l -> List.filter P l = l.
Proof.
  induction l as [|x l IH]; intros H; simpl; [reflexivity|].
  apply Forall_cons_iff in H as [Hx H]. rewrite Hx, IH by exact H. reflexivity.
Qed.

Lemma filter_all_false {A : Type} (P : A -> bool) (l : list A) :
  Forall (fun x => P x = false) l -> List.filter P l = [].
Proof.
  induction l as [|x l IH]; intros H; simpl; [reflexivity|].
  apply Forall_cons_iff in H as [Hx H]. rewrite Hx, IH by exact H. reflexivity.
Qed.

Lemma Forall_filter_impl {A : Type} (P : A -> bool) (Q : A -> Prop) (l : list A) :
  (forall x, P x = true -> Q x) -> Forall Q (List.filter P l).
Proof.
  intros H. apply List.Forall_forall. intros x Hx.
  apply filter_In in Hx as [_ Hx]. exact (H x Hx).
Qed.

(** Splitting a filter by three disjoint predicates. *)
Lemma filter_split3 {A : Type} (P P1 P2 P3 : A -> bool) (l : list A) :
  (forall x, P x = P1 x || P2 x || P3 x) ->
  (forall x, P1 x = true -> P2 x = false /\ P3 x = false) ->
  (forall x, P2 x = true -> P3 x = false) ->
  Permutation (List.filter P l) (List.filter P1 l ++ List.filter P2 l ++ List.filter P3 l).
Proof.
  intros HP H1 H2. induction l as [|x l IH]; simpl; [reflexivity|].
  rewrite HP.
  destruct (P1 x) eqn:E1.
  - destruct (H1 x E1) as [-> ->]. simpl. constructor. exact IH.
  - destruct (P2 x) eqn:E2.
    + rewrite (H2 x E2). simpl. rewrite IH. apply Permutation_middle.
    + destruct (P3 x) eqn:E3; simpl; [|exact IH].
      rewrite IH, app_assoc, app_assoc. apply Permutation_middle.
Qed.

Section Tiers.
Variable progress : gmap string CardProgress.
Variable justSwipedId : option string.

Lemma tier_unseen (c : CodeCard) : is_unseen progress c = true <-> tier progress c = 0%nat.
Proof.
  unfold is_unseen, tier. destruct (progress !! id c) as [p|]; [|tauto].
  destruct (mastered p); split; discriminate.
Qed.

Lemma tier_needsWork (c : CodeCard) : is_needsWork progress c = true <-> tier progress c = 1%nat.
Proof.
  unfold is_needsWork, tier. destruct (progress !! id c) as [p|]; [|split; discriminate].
  destruct (mastered p); simpl; split; congruence.
Qed.

Lemma tier_mastered (c : CodeCard) : is_mastered progress c = true <-> tier progress c = 2%nat.
Proof.
  unfold is_mastered, tier. destruct (progress !! id c) as [p|]; [|split; discriminate].
  destruct (mastered p); simpl; split; congruence.
Qed.

Let nw c := is_needsWork progress c && not_just justSwipedId c.
Let ms c := is_mastered progress c && not_just justSwipedId c.

Lemma keep_split (c : CodeCard) :
  negb (excluded progress justSwipedId c) = is_unseen progress c || nw c || ms c.
Proof.
  unfold excluded, nw, ms, is_unseen, is_needsWork, is_mastered.
  destruct (progress !! id c) as [p|]; [|reflexivity].
  destruct (mastered p), (not_just justSwipedId c); reflexivity.
Qed.

Lemma buildQueue_parts (cards : list CodeCard) :
  buildQueue cards progress justSwipedId =
    List.filter (is_unseen progress) cards ++
    sort_by (lastSeen_of progress) (List.filter nw cards) ++
    sort_by (lastSeen_of progress) (List.filter ms cards).
Proof. reflexivity. Qed.

Lemma buildQueue_perm (cards : list CodeCard) :
  Permutation (buildQueue cards progress justSwipedId)
    (List.filter (fun c => negb (excluded progress justSwipedId c)) cards).
Proof.
  rewrite buildQueue_parts.
  rewrite (filter_split3 _ (is_unseen progress) nw ms cards keep_split).
  - apply Permutation_app; [reflexivity|].
    apply Permutation_app; apply sort_by_perm.
  - intros x Hx. unfold nw, ms, is_unseen, is_needsWork, is_mastered in *.
    destruct (progress !! id x); [discriminate|]. split; reflexivity.
  - intros x Hx. unfold nw, ms, is_needsWork, is_mastered in *.
    destruct (progress !! id x) as [p|]; [|reflexivity].
    destruct (mastered p); simpl in *; [discriminate|reflexivity].
Qed.

Lemma buildQueue_tiers (cards : list CodeCard) :
  StronglySorted (fun a b => (tier progress a <= tier progress b)%nat)
    (buildQueue cards progress justSwipedId).
Proof.
  rewrite buildQueue_parts.
  assert (HU : Forall (fun c => tier progress c = 0%nat) (List.filter (is_unseen progress) cards)).
  { apply Forall_filter_impl. intros x Hx. apply tier_unseen, Hx. }
  assert (HN : Forall (fun c => tier progress c = 1%nat)
                 (sort_by (lastSeen_of progress) (List.filter nw cards))).
  { apply sort_by_forall, Forall_filter_impl. intros x Hx.
    apply andb_prop in Hx as [Hx _]. apply tier_needsWork, Hx. }
  assert (HM : Forall (fun c => tier progress c = 2%nat)
                 (sort_by (lastSeen_of progress) (List.filter ms cards))).
  { apply sort_by_forall, Forall_filter_impl. intros x Hx.
    apply andb_prop in Hx as [Hx _]. apply tier_mastered, Hx. }
  apply StronglySorted_app; [eapply StronglySorted_const; exact HU| |].
  - apply StronglySorted_app;
      [eapply StronglySorted_const; exact HN | eapply StronglySorted_const; exact HM |].
    intros x y Hx Hy. rewrite List.Forall_forall in HN, HM.
    rewrite (HN x Hx), (HM y Hy). lia.
  - intros x y Hx Hy. rewrite List.Forall_forall in HU. rewrite (HU x Hx). lia.
Qed.

Lemma buildQueue_unseen_prefix (cards : list CodeCard) :
  exists rest, buildQueue cards progress justSwipedId =
               List.filter (is_unseen progress) cards ++ rest /\
               Forall (fun c => is_unseen progress c = false) rest.
Proof.
  rewrite buildQueue_parts. eexists; split; [reflexivity|].
  apply Forall_app; split; apply sort_by_forall, Forall_filter_impl; intros x Hx;
    apply andb_prop in Hx as [Hx _];
    unfold is_unseen, is_needsWork, is_mastered in *;
    destruct (progress !! id x); congruence.
Qed.

Lemma buildQueue_filter_unseen (cards : list CodeCard) :
  List.filter (is_unseen progress) (buildQueue cards progress justSwipedId) =
  List.filter (is_unseen progress) cards.
Proof.
  destruct (buildQueue_unseen_prefix cards) as [rest [-> Hr]].
  rewrite List.filter_app, (filter_all_false _ rest Hr).
  rewrite app_nil_r. apply filter_all_true.
  apply Forall_filter_impl. tauto.
Qed.

Lemma buildQueue_filter_needsWork (cards : list CodeCard) :
  List.filter (is_needsWork progress) (buildQueue cards progress justSwipedId) =
  sort_by (lastSeen_of progress) (List.filter nw cards).
Proof.
  rewrite buildQueue_parts, !List.filter_app.
  rewrite (filter_all_false (is_needsWork progress) (List.filter (is_unseen progress) cards)).
  2:{ apply Forall_filter_impl. intros x. unfold is_unseen, is_needsWork.
      destruct (progress !! id x); congruence. }
  rewrite (filter_all_true (is_needsWork progress) (sort_by _ (List.filter nw cards))).
  2:{ apply sort_by_forall, Forall_filter_impl. intros x Hx.
      apply andb_prop in Hx as [Hx _]. exact Hx. }
  rewrite (filter_all_false (is_needsWork progress) (sort_by _ (List.filter ms cards))).
  2:{ apply sort_by_forall, Forall_filter_impl. intros x Hx.
      apply andb_prop in Hx as [Hx _]. unfold is_mastered, is_needsWork in *.
      destruct (progress !! id x) as [p|]; [|discriminate]. rewrite Hx. reflexivity. }
  simpl. apply app_nil_r.
Qed.

Lemma buildQueue_filter_mastered (cards : list CodeCard) :
  List.filter (is_mastered progress) (buildQueue cards progress justSwipedId) =
  sort_by (lastSeen_of progress) (List.filter ms cards).
Proof.
  rewrite buildQueue_parts, !List.filter_app.
  rewrite (filter_all_false (is_mastered progress) (List.filter (is_unseen progress) cards)).
  2:{ apply Forall_filter_impl. intros x. unfold is_unseen, is_mastered.
      destruct (progress !! id x); congruence. }
  rewrite (filter_all_false (is_mastered progress) (sort_by _ (List.filter nw cards))).
  2:{ apply sort_by_forall, Forall_filter_impl. intros x Hx.
      apply andb_prop in Hx as [Hx _]. unfold is_mastered, is_needsWork in *.
      destruct (progress !! id x) as [p|]; [|discriminate].
      destruct (mastered p); [discriminate|reflexivity]. }
  rewrite (filter_all_true (is_mastered progress) (sort_by _ (List.filter ms cards))).
  2:{ apply sort_by_forall, Forall_filter_impl. intros x Hx.
      apply andb_prop in Hx as [Hx _]. exact Hx. }
  reflexivity.
Qed.

Lemma excluded_only_just (c : CodeCard) :
  excluded progress justSwipedId c = true ->
  justSwipedId = Some (id c) /\ is_Some (progress !! id c).
Proof.
  unfold excluded, not_just, is_unseen.
  destruct (progress !! id c) as [p|]; [|discriminate].
  destruct justSwipedId as [j|]; [|discriminate]. simpl.
  rewrite negb_involutive. intros Hj. apply String.eqb_eq in Hj as ->.
  split; [reflexivity | eexists; reflexivity].
Qed.
End Tiers.

End QueueFacts.

Module QueueClaims.
Import Queue QueueFacts.

(** C2: [buildQueue] returns a permutation of the input cards minus the
    excluded ones, and only a card whose id is [justSwipedId] is
    excluded; every unseen card precedes every needs-work card, which
    precedes every mastered card; the unseen cards keep their input
    order; the needs-work and the mastered cards are each in ascending
    [lastSeen] order. *)
Theorem buildQueue_postcondition (cards : list CodeCard)
    (progress : gmap string CardProgress) (justSwipedId : option string) :
  let out := buildQueue cards progress justSwipedId in
  Permutation out (List.filter (fun c => negb (excluded progress justSwipedId c)) cards) /\
  (forall c, excluded progress justSwipedId c = true -> justSwipedId = Some (id c)) /\
  (forall l1 a l2 b l3, out = l1 ++ a :: l2 ++ b :: l3 ->
     (tier progress a <= tier progress b)%nat) /\
  List.filter (is_unseen progress) out = List.filter (is_unseen progress) cards /\
  Sorted (fun a b => lastSeen_of progress a <= lastSeen_of progress b)
    (List.filter (is_needsWork progress) out) /\
  Sorted (fun a b => lastSeen_of progress a <= lastSeen_of progress b)
    (List.filter (is_mastered progress) out).
Proof.
  intros out. split; [|split; [|split; [|split; [|split]]]].
  - apply buildQueue_perm.
  - intros c Hc. apply (excluded_only_just progress justSwipedId c Hc).
  - intros l1 a l2 b l3 Heq.
    pose proof (buildQueue_tiers progress justSwipedId cards) as H.
    fold out in H. rewrite Heq in H.
    exact (StronglySorted_split _ l1 l2 l3 a b H).
  - apply buildQueue_filter_unseen.
  - unfold out. rewrite buildQueue_filter_needsWork. apply sort_by_sorted.
  - unfold out. rewrite buildQueue_filter_mastered. apply sort_by_sorted.
Qed.

(** C9: the unseen cards are never excluded: for every [justSwipedId]
    (also the id of an unseen card) the queue starts with exactly the
    unseen cards in their input order, every unseen input card is in
    the queue, and an input card missing from the queue has a progress
    entry and is the card acted on last. *)
Theorem buildQueue_keeps_unseen (cards : list CodeCard)
    (progress : gmap string CardProgress) (justSwipedId : option string) :
  (exists rest, buildQueue cards progress justSwipedId =
                List.filter (is_unseen progress) cards ++ rest /\
                Forall (fun c => is_unseen progress c = false) rest) /\
  (forall c, In c cards -> is_unseen progress c = true ->
     In c (buildQueue cards progress justSwipedId)) /\
  (forall c, In c cards -> ~ In c (buildQueue cards progress justSwipedId) ->
     is_Some (progress !! id c) /\ justSwipedId = Some (id c)).
Proof.
  split; [|split].
  - apply buildQueue_unseen_prefix.
  - intros c Hin Hu.
    destruct (buildQueue_unseen_prefix progress justSwipedId cards) as [rest [-> _]].
    apply in_or_app. left. apply filter_In. split; assumption.
  - intros c Hin Hout.
    destruct (excluded progress justSwipedId c) eqn:He.
    + destruct (excluded_only_just progress justSwipedId c He). split; assumption.
    + exfalso. apply Hout.
      eapply Permutation_in; [symmetry; apply buildQueue_perm|].
      apply filter_In. rewrite He. split; [exact Hin | reflexivity].
Qed.

End QueueClaims.

(* ----------------------------------------------------------------- *)
(** ** Brace matcher *)

Module BraceFacts.
Import Chars Brace.

Lemma scan_first_close (l : list ascii) :
  forall m depth found i,
    scan l m depth found i = option_map (Nat.add i) (first_close l (m, depth, found)).
Proof.
  induction l as [|ch l IH]; intros m depth found i; simpl; [reflexivity|].
  destruct m; simpl;
    repeat case_match; simpl in *; try congruence;
    try (rewrite IH; destruct (first_close _ _); simpl; [f_equal; lia | reflexivity]);
    repeat match goal with H : Ascii.eqb _ _ = true |- _ => apply Ascii.eqb_eq in H; subst end;
    simpl in *; try congruence; try (f_equal; lia).
Qed.

Lemma closes_from_0 (st : Mode * Z * bool) (ch : ascii) (l : list ascii) :
  closes_from st (ch :: l) 0 <-> closes st ch = true.
Proof.
  unfold closes_from. simpl. split.
  - intros [c [Hc Hcl]]. injection Hc as <-. exact Hcl.
  - intros H. exists ch. split; [reflexivity | exact H].
Qed.

Lemma closes_from_S (st : Mode * Z * bool) (ch : ascii) (l : list ascii) (k : nat) :
  closes_from st (ch :: l) (S k) <-> closes_from (lex_step st ch) l k.
Proof. unfold closes_from. simpl. reflexivity. Qed.

Lemma first_close_some (l : list ascii) :
  forall st k, first_close l st = Some k ->
    closes_from st l k /\ forall j, (j < k)%nat -> ~ closes_from st l j.
Proof.
  induction l as [|ch l IH]; intros st k H; simpl in H; [discriminate|].
  destruct (closes st ch) eqn:Hc.
  - injection H as <-. split; [apply closes_from_0; exact Hc | intros j Hj; lia].
  - destruct (first_close l (lex_step st ch)) as [k'|] eqn:E; simpl in H; [|discriminate].
    injection H as <-. destruct (IH _ _ E) as [Hk Hmin]. split.
    + apply closes_from_S. exact Hk.
    + intros [|j] Hj.
      * rewrite closes_from_0. congruence.
      * rewrite closes_from_S. apply Hmin. lia.
Qed.

Lemma first_close_none (l : list ascii) :
  forall st, first_close l st = None -> forall k, ~ closes_from st l k.
Proof.
  induction l as [|ch l IH]; intros st H k; simpl in H.
  - intros [c [Hc _]]. destruct k; discriminate.
  - destruct (closes st ch) eqn:Hc; [discriminate|].
    destruct (first_close l (lex_step st ch)) eqn:E; [discriminate|].
    destruct k as [|k].
    + rewrite closes_from_0. congruence.
    + rewrite closes_from_S. exact (IH _ E k).
Qed.

Lemma take_S_nth_error {A : Type} (l : list A) (k : nat) (x : A) :
  nth_error l k = Some x -> take (S k) l = take k l ++ [x].
Proof.
  revert k. induction l as [|y l IH]; intros [|k] H; simpl in *; try discriminate.
  - injection H as ->. reflexivity.
  - f_equal. apply IH, H.
Qed.

(** A closing character leaves the scanner in code at depth zero with a
    brace opened. *)
Lemma lex_at_close (d : list ascii) (k : nat) :
  closes_at d k -> lex (take (S k) d) = (Code, 0, true).
Proof.
  intros [ch [Hch Hcl]]. unfold lex. rewrite (take_S_nth_error d k ch Hch), fold_left_app.
  simpl. destruct (fold_left lex_step (take k d) (Code, 0, false)) as [[m depth] found].
  destruct m; simpl in Hcl; try discriminate.
  apply andb_prop in Hcl as [Hcl Hz]. apply andb_prop in Hcl as [Hb Hf].
  apply Ascii.eqb_eq in Hb as ->. subst found. apply Z.eqb_eq in Hz. simpl.
  rewrite Hz. reflexivity.
Qed.

End BraceFacts.

Module BraceClaims.
Import Chars Brace BraceFacts.

(** C4 (as stated, refuted): the block returned does not start with the
    first [{] at or after the offset; it starts at the offset itself,
    which every caller sets to the start of the declaration. *)
Lemma extractBraceBlock_not_from_brace :
  ~ (forall (source : list ascii) (startIdx : nat) (r : list ascii),
       extractBraceBlock source startIdx = Some r -> hd_error r = Some "{"%char).
Proof.
  intros H.
  specialize (H (list_ascii_of_string "export function f() { return 1; }") 0%nat
                (list_ascii_of_string "export function f() { return 1; }") eq_refl).
  discriminate H.
Qed.

(** C4 (amended): [extractBraceBlock source startIdx] returns the text
    from [startIdx] through the first [}] outside string, char and
    template literals at which the depth counted from [startIdx] returns
    to zero after a [{] was opened (so the text ends in code at depth
    zero), and [null] exactly when no such [}] exists, as on
    ["function f() { return 1;"]. *)
Theorem extractBraceBlock_first_balanced (source : list ascii) (startIdx : nat) :
  (let d := drop startIdx source in
   match extractBraceBlock source startIdx with
   | Some r =>
       exists k, r = take (S k) d /\ closes_at d k /\
                 (forall j, (j < k)%nat -> ~ closes_at d j) /\
                 lex r = (Code, 0, true)
   | None => forall k, ~ closes_at d k
   end) /\
  extractBraceBlock (list_ascii_of_string "function f() { return 1;") 0 = None.
Proof.
  split; [|reflexivity].
  intros d. unfold extractBraceBlock. fold d.
  rewrite scan_first_close.
  destruct (first_close d (Code, 0, false)) as [k|] eqn:E; simpl.
  - destruct (first_close_some d _ k E) as [Hk Hmin].
    exists k. replace (S (startIdx + k) - startIdx)%nat with (S k) by lia.
    split; [reflexivity|]. split; [exact Hk|]. split; [exact Hmin|].
    apply lex_at_close, Hk.
  - exact (first_close_none d _ E).
Qed.

End BraceClaims.

(* ----------------------------------------------------------------- *)
(** ** Ranker *)

Module RankFacts.
Import Rank.

Lemma Sorted_weaken {A : Type} (R R' : A -> A -> Prop) (l : list A) :
  (forall a b, R a b -> R' a b) -> Sorted R l -> Sorted R' l.
Proof.
  intros HR Hs. induction Hs as [|x l Hs IH Hh]; constructor; [exact IH|].
  destruct Hh; constructor. apply HR. assumption.
Qed.

Lemma insert_by_map {A B : Type} (k : B -> Z) (f : A -> B) (x : A) (l : list A) :
  insert_by k (f x) (map f l) = map f (insert_by (fun a => k (f a)) x l).
Proof.
  induction l as [|y l IH]; simpl; [reflexivity|].
  destruct (k (f x) <=? k (f y)); simpl; [reflexivity|]. rewrite IH. reflexivity.
Qed.

Lemma sort_by_map {A B : Type} (k : B -> Z) (f : A -> B) (l : list A) :
  sort_by k (map f l) = map f (sort_by (fun a => k (f a)) l).
Proof.
  induction l as [|x l IH]; simpl; [reflexivity|]. rewrite IH. apply insert_by_map.
Qed.

(** [rankBlocks] is the stable sort of the deduplicated blocks by
    descending score. *)
Lemma rankBlocks_sort (blocks : list ExtractedBlock) :
  rankBlocks blocks = sort_by (fun b => - score b) (unique_go ∅ blocks).
Proof.
  unfold rankBlocks. rewrite sort_by_map, map_map. simpl. apply map_id.
Qed.

Lemma BlockType_eqb_eq (a b : BlockType) : BlockType_eqb a b = true <-> a = b.
Proof. destruct a, b; simpl; split; congruence. Qed.

(** [String.append] is [simpl never] under stdpp: compute it by hand. *)
Ltac str_simpl H :=
  repeat (change (String.append "" ?x) with x in H ||
          change (String.append (String ?c ?a) ?b) with (String c (String.append a b)) in H).

Lemma colon_in_key (n s : string) :
  In ":"%char (list_ascii_of_string (String.append n (String.append ":" s))).
Proof.
  induction n as [|c n IH]; [left; reflexivity|].
  change (In ":"%char (c :: list_ascii_of_string (String.append n (String.append ":" s)))).
  right; exact IH.
Qed.

Lemma no_colon_type (t : BlockType) : ~ In ":"%char (list_ascii_of_string (BlockType_str t)).
Proof. destruct t; simpl; intuition discriminate. Qed.

(** The template key [`${name}:${type}`] is injective: a type name has
    no colon, so the last colon splits the key. *)
Lemma dedup_key_inj (n1 n2 : string) (t1 t2 : BlockType) :
  String.append n1 (String.append ":" (BlockType_str t1)) =
  String.append n2 (String.append ":" (BlockType_str t2)) -> n1 = n2 /\ t1 = t2.
Proof.
  revert n2. induction n1 as [|c1 n1 IH]; intros [|c2 n2] H; str_simpl H.
  - injection H as H. split; [reflexivity|].
    destruct t1, t2; simpl in H; try discriminate; reflexivity.
  - injection H as <- H. exfalso. apply (no_colon_type t1). rewrite H. apply colon_in_key.
  - injection H as -> H. exfalso. apply (no_colon_type t2). rewrite <- H. apply colon_in_key.
  - injection H as -> H. destruct (IH n2 H) as [-> ->]. split; reflexivity.
Qed.

Definition pair_seen (ps : list (string * BlockType)) (b : ExtractedBlock) : bool :=
  existsb (fun '(n, t) => String.eqb n (eb_name b) && BlockType_eqb t (eb_type b)) ps.

Lemma unique_go_dedup_pairs (blocks : list ExtractedBlock) :
  forall (seen : gset string) (ps : list (string * BlockType)),
    (forall b, dedup_key b ∈ seen <-> pair_seen ps b = true) ->
    unique_go seen blocks = dedup_pairs ps blocks.
Proof.
  induction blocks as [|b blocks IH]; intros seen ps Hinv; simpl; [reflexivity|].
  fold (pair_seen ps b).
  destruct (bool_decide (dedup_key b ∈ seen)) eqn:E.
  - apply bool_decide_eq_true in E. apply Hinv in E. rewrite E. apply IH, Hinv.
  - apply bool_decide_eq_false in E.
    destruct (pair_seen ps b) eqn:Ep; [exfalso; apply E, Hinv, Ep|].
    f_equal. apply IH. intros b'. unfold pair_seen. simpl.
    rewrite elem_of_union, elem_of_singleton, orb_true_iff, andb_true_iff,
      String.eqb_eq, BlockType_eqb_eq.
    fold (pair_seen ps b'). rewrite <- Hinv.
    split; intros [H|H]; [left | right; exact H | left | right; exact H].
    + unfold dedup_key in H. apply dedup_key_inj in H as [Hn Ht].
      split; symmetry; assumption.
    + destruct H as [Hn Ht]. unfold dedup_key. rewrite Hn, Ht. reflexivity.
Qed.

End RankFacts.

Module RankClaims.
Import Rank RankFacts.

(** C5 (as stated, refuted): "+5 if doc text present" does not hold for
    an empty doc text: the class with [jsDoc = ""] and the undocumented
    component have equal scores by the spec's formula, so a stable sort
    would keep them in input order, but [rankBlocks] puts the component
    first because the empty doc text earns no bonus. *)
Lemma rankBlocks_empty_doc_no_bonus :
  spec_score empty_doc_class = spec_score plain_component /\
  rankBlocks [empty_doc_class; plain_component] = [plain_component; empty_doc_class].
Proof. split; reflexivity. Qed.

(** C5 (amended): [rankBlocks] drops every block whose (name, kind) pair
    occurred earlier and keeps the first; it scores each block by +10
    for 8..25 lines, else +5 for 4..35 lines, +5 for a non-empty doc
    text, +3 for a function, +2 for a type; the result is a permutation
    of the deduplicated blocks sorted by descending score in which
    blocks of equal score keep their relative order. *)
Theorem rankBlocks_dedup_then_stable_sort (blocks : list ExtractedBlock) :
  let u := dedup_pairs [] blocks in
  let out := rankBlocks blocks in
  unique_go ∅ blocks = u /\
  (forall b, score b =
     (if (8 <=? eb_lineCount b) && (eb_lineCount b <=? 25) then 10
      else if (4 <=? eb_lineCount b) && (eb_lineCount b <=? 35) then 5 else 0) +
     (match eb_jsDoc b with Some s => if String.eqb s "" then 0 else 5 | None => 0 end) +
     (match eb_type b with BFunction => 3 | BType => 2 | _ => 0 end)) /\
  Permutation out u /\
  Sorted (fun a b => score b <= score a) out /\
  (forall z, List.filter (fun b => score b =? z) out = List.filter (fun b => score b =? z) u).
Proof.
  intros u out.
  assert (Hu : unique_go ∅ blocks = u).
  { apply unique_go_dedup_pairs. intros b. rewrite elem_of_empty. simpl. split; [tauto|discriminate]. }
  unfold out. rewrite rankBlocks_sort, Hu.
  split; [reflexivity|]. split; [|split; [|split]].
  - intros b. unfold score. destruct (eb_jsDoc b) as [d|]; simpl;
      [destruct (String.eqb d "")|]; destruct (eb_type b); simpl; lia.
  - apply sort_by_perm.
  - eapply Sorted_weaken; [|apply sort_by_sorted]. simpl. intros a b H. lia.
  - intros z. rewrite <- (List.filter_ext (fun b => - score b =? - z)).
    + rewrite sort_by_stable. apply List.filter_ext. intros b.
      destruct (Z.eqb_spec (- score b) (- z)), (Z.eqb_spec (score b) z); lia.
    + intros b. destruct (Z.eqb_spec (- score b) (- z)), (Z.eqb_spec (score b) z); lia.
Qed.

End RankClaims.

(* ----------------------------------------------------------------- *)
(** ** Difficulty estimation *)

Module GenerateFacts.
Import Chars Generate.

Lemma prefixb_app (p s : list ascii) : prefixb p s = true -> exists rest, s = p ++ rest.
Proof.
  revert s. induction p as [|a p IH]; intros [|b s] H; simpl in H; try discriminate.
  - exists []. reflexivity.
  - exists (b :: s). reflexivity.
  - apply andb_prop in H as [Hab H]. apply Ascii.eqb_eq in Hab as ->.
    destruct (IH s H) as [rest ->]. exists rest. reflexivity.
Qed.

Section Pattern.
(** A [\w+] name: its first character [c0] and the rest [w]. *)
Variable c0 : ascii.
Variable w : list ascii.
Hypothesis Hc0 : is_word c0 = true.
Hypothesis Hw : Forall (fun ch => is_word ch = true) w.
Let pat := c0 :: w ++ ["("%char].

Lemma paren_not_word : is_word "("%char = false.
Proof. reflexivity. Qed.

(** No occurrence starts inside an occurrence. *)
Lemma occurrences_inside (v : list ascii) (p : ascii) (rest : list ascii) :
  Forall (fun ch => is_word ch = true) v -> is_word p = true ->
  occurrences pat (Some p) (v ++ "("%char :: rest) = occurrences pat (Some "("%char) rest.
Proof.
  revert p. induction v as [|x v IH]; intros p Hv Hp; simpl.
  - unfold boundary. rewrite Hp, paren_not_word. simpl.
    unfold pat. simpl. destruct (Ascii.eqb c0 "("%char) eqn:E; [|reflexivity].
    apply Ascii.eqb_eq in E. rewrite E in Hc0. discriminate.
  - apply Forall_cons_iff in Hv as [Hx Hv].
    unfold boundary. rewrite Hp, Hx. simpl. apply IH; assumption.
Qed.

(** The global search resumes after the occurrence. *)
Lemma count_matches_skip (v : list ascii) (p : ascii) (rest : list ascii) :
  count_matches pat (Some p) (S (length v)) (v ++ "("%char :: rest) =
  count_matches pat (Some "("%char) O rest.
Proof.
  revert p. induction v as [|x v IH]; intros p; simpl; [reflexivity|]. apply IH.
Qed.

Lemma count_matches_occurrences (n : nat) :
  forall s prev, (length s <= n)%nat -> count_matches pat prev O s = occurrences pat prev s.
Proof.
  induction n as [|n IH]; intros s prev Hlen.
  - destruct s; [reflexivity | simpl in Hlen; lia].
  - destruct s as [|c r]; [reflexivity|]. simpl in Hlen.
    change (count_matches pat prev O (c :: r)) with
      (if boundary prev c && prefixb pat (c :: r)
       then S (count_matches pat (Some c) (pred (length pat)) r)
       else count_matches pat (Some c) O r).
    change (occurrences pat prev (c :: r)) with
      ((if boundary prev c && prefixb pat (c :: r) then 1 else 0) +
       occurrences pat (Some c) r)%nat.
    destruct (boundary prev c && prefixb pat (c :: r)) eqn:E.
    + pose proof (andb_prop _ _ E) as [_ Hpre]. apply prefixb_app in Hpre as [rest Hrest].
      unfold pat in Hrest. simpl in Hrest. injection Hrest as Hc Hr. subst c.
      rewrite <- app_assoc in Hr. simpl in Hr. subst r.
      replace (pred (length pat)) with (S (length w))
        by (unfold pat; simpl; rewrite length_app; simpl; lia).
      rewrite count_matches_skip, occurrences_inside by assumption.
      simpl. f_equal. apply IH. rewrite length_app in Hlen. simpl in Hlen. lia.
    + simpl. apply IH. lia.
Qed.
End Pattern.

End GenerateFacts.

Module GenerateClaims.
Import Chars Generate GenerateFacts.

(** C6 (as stated, refuted): the recursion bonus does not need two call
    sites inside the body: for a function calling itself once,
    [estimateDifficulty] gives 2 (the header [countdown(] is the second
    match), while the spec's formula gives 1. *)
Lemma estimateDifficulty_counts_header :
  estimateDifficulty recursive_block = 2 /\ claim_estimateDifficulty recursive_block = 1.
Proof. split; vm_compute; reflexivity. Qed.

(** C6 (amended): for a block that is not a function block, or whose
    name is a [\w+] identifier (the name is read literally only where
    it builds the pattern of a function block), the difficulty is the tier (>= 4 gives 3, >= 2 gives 2, else 1) of the
    sum of: +2 for more than 20 lines, else +1 for more than 10; +2 for a
    maximum running brace depth above 4, else +1 above 2 (strings not
    skipped); +1 if the code has both [<] and [>]; +1 if it contains
    [async] or [await]; +2 for a function when [name(] occurs at an
    identifier boundary more than once in the whole code, the
    declaration header included. *)
Theorem estimateDifficulty_recursion_whole_code (b : ExtractedBlock)
    (Hname : eb_type b = BFunction ->
             exists c0 w, list_ascii_of_string (eb_name b) = c0 :: w /\
                          Forall (fun ch => is_word ch = true) (c0 :: w)) :
  estimateDifficulty b =
    (let code := list_ascii_of_string (eb_code b) in
     let lineCount := eb_lineCount b in
     let c1 := if lineCount >? 20 then 2 else if lineCount >? 10 then 1 else 0 in
     let maxDepth := max_depth_go code 0 0 in
     let c2 := if maxDepth >? 4 then 2 else if maxDepth >? 2 then 1 else 0 in
     let c3 := if includes code ["<"%char] && includes code [">"%char] then 1 else 0 in
     let c4 := if includes code (list_ascii_of_string "async") ||
                  includes code (list_ascii_of_string "await") then 1 else 0 in
     let c5 := match eb_type b with
               | BFunction =>
                   if Nat.ltb 1 (occurrences (call_pattern (eb_name b)) None code)
                   then 2 else 0
               | _ => 0
               end in
     let complexity := c1 + c2 + c3 + c4 + c5 in
     if complexity >=? 4 then 3 else if complexity >=? 2 then 2 else 1) /\
  1 <= estimateDifficulty b <= 3.
Proof.
  split.
  - destruct (eb_type b) eqn:Ht; [|unfold estimateDifficulty; rewrite Ht; reflexivity ..].
    destruct (Hname eq_refl) as [c0 [w [Hn Hf]]]. apply Forall_cons_iff in Hf as [Hc0 Hw].
    assert (Hpat : call_pattern (eb_name b) = c0 :: w ++ ["("%char]).
    { unfold call_pattern. rewrite Hn. reflexivity. }
    unfold estimateDifficulty. rewrite Hpat, Ht.
    rewrite (count_matches_occurrences c0 w Hc0 Hw (length (list_ascii_of_string (eb_code b))))
      by lia.
    reflexivity.
  - unfold estimateDifficulty.
    repeat match goal with |- context [if ?c then _ else _] => destruct c end; lia.
Qed.

Lemma estimateDifficulty_recursion_whole_code_witness :
  (eb_type recursive_block = BFunction ->
   exists c0 w, list_ascii_of_string (eb_name recursive_block) = c0 :: w /\
                Forall (fun ch => is_word ch = true) (c0 :: w)) /\
  estimateDifficulty recursive_block = 2.
Proof.
  assert (H : eb_type recursive_block = BFunction ->
              exists c0 w, list_ascii_of_string (eb_name recursive_block) = c0 :: w /\
                           Forall (fun ch => is_word ch = true) (c0 :: w)).
  { intros _. eexists; eexists; split; [reflexivity|]. repeat constructor. }
  split; [exact H|].
  destruct (estimateDifficulty_recursion_whole_code recursive_block H) as [-> _].
  vm_compute. reflexivity.
Defined.

End GenerateClaims.

(* ----------------------------------------------------------------- *)
(** ** Whole-file fallback *)

Module ExtractClaims.
Import Chars Extract.

(** C7: when the per-language extractor finds no block, [extractBlocks]
    returns exactly one [file] block whose code is the trimmed content,
    whose name is the last path segment and whose line count is the
    file's, if the file has at most 40 lines; and no block at all if it
    has more than 40 lines. *)
Theorem extractBlocks_whole_file_fallback
    (extractPython extractRust extractGo extractSwift : string -> FileContent -> list ExtractedBlock)
    (extractTS : string -> FileContent -> LangValue -> list ExtractedBlock)
    (file : FileContent)
    (Hnone : per_language extractPython extractRust extractGo extractSwift extractTS file = []) :
  let src := list_ascii_of_string (content file) in
  (line_count src <= 40 ->
   exists b, extractBlocks extractPython extractRust extractGo extractSwift extractTS file = [b] /\
             eb_type b = BFile /\
             eb_code b = string_of_list_ascii (trim src) /\
             eb_name b = string_of_list_ascii
                           (last_segment (split_on "/"%char (list_ascii_of_string (path file)))) /\
             eb_filePath b = path file /\
             eb_lineCount b = line_count src) /\
  (40 < line_count src ->
   extractBlocks extractPython extractRust extractGo extractSwift extractTS file = []).
Proof.
  intros src. unfold extractBlocks. rewrite Hnone. fold src. split.
  - intros Hle. apply Z.leb_le in Hle. rewrite Hle.
    eexists; split; [reflexivity|]. repeat split.
  - intros Hgt. destruct (Z.leb_spec (line_count src) 40); [lia | reflexivity].
Qed.

Lemma extractBlocks_whole_file_fallback_witness :
  per_language no_blocks no_blocks no_blocks no_blocks no_blocks_ts notes_file = [] /\
  exists b, extractBlocks no_blocks no_blocks no_blocks no_blocks no_blocks_ts notes_file = [b] /\
            eb_type b = BFile /\ eb_name b = "notes.txt" /\
            eb_code b = "just some prose
with no declarations".
Proof.
  split; [reflexivity|].
  destruct (extractBlocks_whole_file_fallback no_blocks no_blocks no_blocks no_blocks
              no_blocks_ts notes_file eq_refl) as [Hle _].
  destruct (Hle ltac:(vm_compute; discriminate)) as [b [Hb [Ht [Hc [Hn _]]]]].
  exists b. split; [exact Hb|]. split; [exact Ht|].
  rewrite Hn, Hc. split; vm_compute; reflexivity.
Defined.

End ExtractClaims.

(* ----------------------------------------------------------------- *)
(** ** Ingestion *)

Module IngestFacts.

Lemma rankBlocks_nil (blocks : list ExtractedBlock) : Rank.rankBlocks blocks = [] -> blocks = [].
Proof.
  rewrite RankFacts.rankBlocks_sort. intros H.
  destruct blocks as [|b blocks]; [reflexivity|]. exfalso.
  pose proof (Permutation_length (sort_by_perm (fun b => - Rank.score b)
                                   (Rank.unique_go ∅ (b :: blocks)))) as Hl.
  rewrite H in Hl. simpl in Hl.
  rewrite bool_decide_eq_false_2 in Hl by (rewrite elem_of_empty; tauto).
  simpl in Hl. discriminate.
Qed.

Lemma generateCards_cons (b : ExtractedBlock) (rest : list ExtractedBlock) :
  Generate.generateCards (b :: rest) Generate.MAX_CARDS <> [].
Proof. unfold Generate.generateCards. simpl. discriminate. Qed.

End IngestFacts.

Module IngestClaims.
Import Ingest IngestFacts.

Section Claims.
Variable RepoMeta TreeEntry : Type.
Variable defaultBranch : RepoMeta -> string.
Variable entry_path : TreeEntry -> string.
Variable parseRepoInput : string -> option (string * string).
Variable fetchRepo : string -> string -> Result RepoMeta.
Variable fetchTree : string -> string -> string -> Result (list TreeEntry).
Variable filterCodeFiles : list TreeEntry -> list TreeEntry.
Variable fetchFiles : string -> string -> list string -> Result (list Extract.FileContent).
Variable extractBlocks : Extract.FileContent -> list ExtractedBlock.

(** C8: [ingestRepo] rejects with "No supported code files found in
    this repo." when filtering leaves no code file, and with "Couldn't
    extract any learnable code blocks." when the fetched files yield no
    block at all (the caller shows [e.message]); a successful ingestion
    never returns an empty card list. *)
Theorem ingestRepo_empty_is_error (input : string) :
  (forall owner repo meta tree,
     parseRepoInput input = Some (owner, repo) ->
     fetchRepo owner repo = Ok meta ->
     fetchTree owner repo (defaultBranch meta) = Ok tree ->
     filterCodeFiles tree = [] ->
     ingestRepo RepoMeta TreeEntry defaultBranch entry_path parseRepoInput fetchRepo
       fetchTree filterCodeFiles fetchFiles extractBlocks input
     = Err "No supported code files found in this repo.") /\
  (forall owner repo meta tree files,
     parseRepoInput input = Some (owner, repo) ->
     fetchRepo owner repo = Ok meta ->
     fetchTree owner repo (defaultBranch meta) = Ok tree ->
     filterCodeFiles tree <> [] ->
     fetchFiles owner repo (map entry_path (filterCodeFiles tree)) = Ok files ->
     flat_map extractBlocks files = [] ->
     ingestRepo RepoMeta TreeEntry defaultBranch entry_path parseRepoInput fetchRepo
       fetchTree filterCodeFiles fetchFiles extractBlocks input
     = Err "Couldn't extract any learnable code blocks.") /\
  (forall meta cards,
     ingestRepo RepoMeta TreeEntry defaultBranch entry_path parseRepoInput fetchRepo
       fetchTree filterCodeFiles fetchFiles extractBlocks input = Ok (meta, cards) ->
     cards <> []).
Proof.
  unfold ingestRepo. split; [|split].
  - intros owner repo meta tree Hp Hr Ht Hf. rewrite Hp, Hr, Ht, Hf. reflexivity.
  - intros owner repo meta tree files Hp Hr Ht Hf Hfs Hb.
    rewrite Hp, Hr, Ht.
    destruct (filterCodeFiles tree) as [|e es]; [congruence|].
    rewrite Hfs, Hb. reflexivity.
  - intros meta cards.
    destruct (parseRepoInput input) as [[owner repo]|]; [|discriminate].
    destruct (fetchRepo owner repo) as [m|]; [|discriminate].
    destruct (fetchTree owner repo (defaultBranch m)) as [tree|]; [|discriminate].
    destruct (filterCodeFiles tree) as [|e es]; [discriminate|].
    destruct (fetchFiles owner repo _) as [files|]; [|discriminate].
    destruct (Rank.rankBlocks (flat_map extractBlocks files)) as [|b rest]; [discriminate|].
    intros H. injection H as _ <-. apply generateCards_cons.
Qed.
End Claims.

End IngestClaims.

(* ----------------------------------------------------------------- *)
(** ** Review hook handlers and recent repositories *)

Lemma filter_length_perm {A : Type} (P : A -> bool) (l1 l2 : list A) :
  Permutation l1 l2 -> length (List.filter P l1) = length (List.filter P l2).
Proof.
  induction 1 as [|x l1 l2 _ IH|x y l|l1 l2 l3 _ IH1 _ IH2]; simpl.
  - reflexivity.
  - destruct (P x); simpl; lia.
  - destruct (P x), (P y); simpl; lia.
  - lia.
Qed.

(** [String.append] is [simpl never] under stdpp. *)
Lemma append_String (c : ascii) (s t : string) :
  String.append (String c s) t = String c (String.append s t).
Proof. reflexivity. Qed.

Lemma append_cancel_l (p a b : string) : String.append p a = String.append p b -> a = b.
Proof.
  induction p as [|c p IH]; [exact (fun h => h)|].
  rewrite !append_String. intros H. injection H as H. exact (IH H).
Qed.

Module StoreFacts.
Import Deck Queue Store DeckFacts QueueFacts.

Lemma mastered_count_insert (m : gmap string CardProgress) (i : string) (x : CardProgress) :
  mastered_count (<[i := x]> m) =
  (mastered_count (delete i m) + if mastered x then 1 else 0)%nat.
Proof.
  unfold mastered_count. rewrite <- insert_delete_eq.
  rewrite (filter_length_perm _ _ _ (Permutation_map snd
             (map_to_list_insert (delete i m) i x (lookup_delete_eq m i)))).
  simpl. destruct (mastered x); simpl; lia.
Qed.

Lemma mastered_count_delete (m : gmap string CardProgress) (i : string) (p : CardProgress) :
  m !! i = Some p ->
  mastered_count m = (mastered_count (delete i m) + if mastered p then 1 else 0)%nat.
Proof.
  intros H. assert (Hm : m = <[i := p]> (delete i m)) by (symmetry; apply insert_delete_id, H).
  rewrite Hm at 1. rewrite mastered_count_insert, delete_delete_eq. reflexivity.
Qed.

Lemma mastered_count_empty : mastered_count ∅ = 0%nat.
Proof. reflexivity. Qed.

(** After a swipe on [c], a seen card whose id is the last-swiped one
    is not in the queue. *)
Lemma queue_drops_acted (cards : list CodeCard) (d : DeckState) (c : CodeCard) :
  is_Some (progress d !! id c) -> lastSwipedId d = Some (id c) ->
  forall c', In c' (queue cards d) -> id c' <> id c.
Proof.
  intros [p Hp] Hl c' Hin Heq. unfold queue in Hin. rewrite Hl in Hin.
  eapply Permutation_in in Hin; [|apply buildQueue_perm].
  apply filter_In in Hin as [_ Hex].
  unfold excluded, is_unseen, not_just in Hex. rewrite Heq, Hp in Hex.
  rewrite String.eqb_refl in Hex. discriminate.
Qed.

Lemma review_inv_empty : review_inv ∅.
Proof. intros k p Hk. by rewrite lookup_empty in Hk. Qed.

Lemma mastered_le_count (cards : list CodeCard) :
  forall m : gmap string CardProgress,
  NoDup (map id cards) -> Forall (fun c => is_mastered m c = true) cards ->
  (length cards <= mastered_count m)%nat.
Proof.
  induction cards as [|c cs IH]; intros m Hnd Hall; simpl; [lia|].
  inversion Hnd as [|? ? Hnin Hnd']; subst.
  apply Forall_cons_iff in Hall as [Hc Hall].
  unfold is_mastered in Hc. destruct (m !! id c) as [p|] eqn:Hp; [|discriminate].
  rewrite (mastered_count_delete m (id c) p Hp), Hc.
  assert (length cs <= mastered_count (delete (id c) m))%nat; [|lia].
  apply IH; [exact Hnd'|].
  apply List.Forall_forall. intros c' Hin'. rewrite List.Forall_forall in Hall.
  pose proof (Hall c' Hin') as Hm.
  unfold is_mastered. rewrite lookup_delete_ne; [exact Hm|].
  intros Heq. apply Hnin. rewrite list_elem_of_In, Heq. apply in_map, Hin'.
Qed.

End StoreFacts.

Module StoreClaims.
Import Deck Queue Store DeckFacts QueueFacts StoreFacts.

(** On every progress map reached from an empty one by swipes, the dots
    of [getSeenDots] light up from the left (a lit dot has every dot
    before it lit) and the third dot is lit exactly when the card is
    mastered. *)
Theorem getSeenDots_reachable (acts : list (CodeCard * Action * Z)) (d : DeckState)
    (Hfresh : progress d = ∅) (k : string) :
  let e := progress (run acts d) !! k in
  let '(d1, d2, d3) := getSeenDots e in
  (d3 = true -> d2 = true) /\ (d2 = true -> d1 = true) /\
  d3 = match e with Some p => mastered p | None => false end.
Proof.
  pose proof (run_inv acts d ltac:(rewrite Hfresh; apply review_inv_empty)) as Hinv.
  simpl. destruct (progress (run acts d) !! k) as [p|] eqn:Hk; simpl; [|tauto].
  specialize (Hinv k p Hk).
  repeat split; intros; repeat match goal with H : (_ <=? _) = true |- _ => apply Z.leb_le in H end;
    try (apply Z.leb_le; lia).
  destruct (mastered p) eqn:Hm.
  - apply Z.leb_le. apply Hinv. reflexivity.
  - apply Z.leb_gt. destruct (Z.le_gt_cases 3 (seen p)) as [Hs|Hs]; [|lia].
    apply Hinv in Hs. discriminate.
Qed.

Lemma getSeenDots_reachable_witness :
  progress empty_deck = ∅ /\
  (let e := progress (run [(demo_card, Confirm, 1); (demo_card, Confirm, 2)] empty_deck)
              !! id demo_card in
   let '(d1, d2, d3) := getSeenDots e in
   (d3 = true -> d2 = true) /\ (d2 = true -> d1 = true) /\
   d3 = match e with Some p => mastered p | None => false end).
Proof.
  split; [reflexivity|].
  exact (getSeenDots_reachable [(demo_card, Confirm, 1); (demo_card, Confirm, 2)]
           empty_deck eq_refl (id demo_card)).
Defined.

(** The mastered counter of the hook moves with the mastery signal: on
    every progress map reached from an empty one, a confirm adds one to
    [mastered] exactly when it raises the mastery signal and otherwise
    leaves it unchanged, and a reject takes one off exactly when the
    card was mastered. *)
Theorem mastered_count_tracks_signal (acts : list (CodeCard * Action * Z)) (d0 : DeckState)
    (Hfresh : progress d0 = ∅) (c : CodeCard) (now : Z) :
  let d := run acts d0 in
  mastered_count (progress (fst (swipeRight c now d))) =
    (mastered_count (progress d) + if snd (swipeRight c now d) then 1 else 0)%nat /\
  (mastered_count (progress (swipeLeft c now d)) +
     if is_mastered (progress d) c then 1 else 0)%nat = mastered_count (progress d).
Proof.
  intros d.
  pose proof (run_inv acts d0 ltac:(rewrite Hfresh; apply review_inv_empty)) as Hinv.
  fold d in Hinv. split.
  - unfold swipeRight, swipeRight_update. simpl.
    rewrite mastered_count_insert. simpl.
    destruct (progress d !! id c) as [p|] eqn:Hp.
    + rewrite (mastered_count_delete _ _ _ Hp).
      specialize (Hinv _ _ Hp).
      destruct (mastered p) eqn:Hm.
      * assert (3 <= seen p) by (apply Hinv; reflexivity).
        replace (seen p + 1 >=? 3) with true by (symmetry; apply Z.geb_le; lia).
        simpl. lia.
      * assert (seen p < 3).
        { destruct (Z.lt_ge_cases (seen p) 3) as [H|H]; [exact H|].
          apply Hinv in H. discriminate. }
        destruct (seen p + 1 >=? 3); simpl; lia.
    + rewrite delete_id by exact Hp. simpl. lia.
  - unfold swipeLeft. simpl. rewrite mastered_count_insert. simpl.
    unfold is_mastered.
    destruct (progress d !! id c) as [p|] eqn:Hp.
    + rewrite (mastered_count_delete _ _ _ Hp). lia.
    + rewrite delete_id by exact Hp. lia.
Qed.

Lemma mastered_count_tracks_signal_witness :
  progress empty_deck = ∅ /\
  (let d := run [(demo_card, Confirm, 1); (demo_card, Confirm, 2)] empty_deck in
   mastered_count (progress (fst (swipeRight demo_card 3 d))) =
     (mastered_count (progress d) + if snd (swipeRight demo_card 3 d) then 1 else 0)%nat /\
   (mastered_count (progress (swipeLeft demo_card 3 d)) +
      if is_mastered (progress d) demo_card then 1 else 0)%nat = mastered_count (progress d)).
Proof.
  split; [reflexivity|].
  exact (mastered_count_tracks_signal [(demo_card, Confirm, 1); (demo_card, Confirm, 2)]
           empty_deck eq_refl demo_card 3).
Defined.

(** [allMastered] holds once every card of a non-empty deck whose ids
    are pairwise distinct has a mastered progress entry. *)
Theorem allMastered_when_every_card_mastered (cards : list CodeCard)
    (progress : gmap string CardProgress)
    (Hne : cards <> []) (Hids : NoDup (map id cards))
    (Hall : Forall (fun c => is_mastered progress c = true) cards) :
  allMastered cards progress = true.
Proof.
  unfold allMastered. apply andb_true_intro. split.
  - apply Nat.leb_le, mastered_le_count; assumption.
  - apply Nat.ltb_lt. destruct cards; [congruence|simpl; lia].
Qed.

Lemma allMastered_when_every_card_mastered_witness :
  let pm := progress (run [(demo_card, Confirm, 1); (demo_card, Confirm, 2);
                           (demo_card, Confirm, 3)] empty_deck) in
  [demo_card] <> [] /\ NoDup (map id [demo_card]) /\
  Forall (fun c => is_mastered pm c = true) [demo_card] /\
  allMastered [demo_card] pm = true.
Proof.
  intros pm.
  assert (H1 : [demo_card] <> []) by discriminate.
  assert (H2 : NoDup (map id [demo_card])) by (apply NoDup_singleton).
  assert (H3 : Forall (fun c => is_mastered pm c = true) [demo_card])
    by (constructor; [vm_compute; reflexivity | constructor]).
  split; [exact H1|]. split; [exact H2|]. split; [exact H3|].
  exact (allMastered_when_every_card_mastered [demo_card] pm H1 H2 H3).
Defined.

(** A right or left swipe moves the deck on: afterwards no card with
    the id of the card that was current is in the queue (its entry
    exists and it is the last-swiped card). *)
Theorem swipe_moves_past_current (cards : list CodeCard) (now : Z) (d : DeckState)
    (c : CodeCard) (Hcur : currentCard cards d = Some c) :
  (forall c', In c' (queue cards (fst (handleSwipeRight cards now d))) -> id c' <> id c) /\
  (forall c', In c' (queue cards (handleSwipeLeft cards now d)) -> id c' <> id c).
Proof.
  unfold handleSwipeRight, handleSwipeLeft. rewrite Hcur. split.
  - apply queue_drops_acted; [|reflexivity].
    rewrite (proj1 (swipeRight_entry c now d)). eexists; reflexivity.
  - apply queue_drops_acted; [|reflexivity].
    rewrite swipeLeft_entry. eexists; reflexivity.
Qed.

Lemma swipe_moves_past_current_witness :
  currentCard [demo_card] empty_deck = Some demo_card /\
  (forall c', In c' (queue [demo_card] (fst (handleSwipeRight [demo_card] 1 empty_deck))) ->
              id c' <> id demo_card) /\
  (forall c', In c' (queue [demo_card] (handleSwipeLeft [demo_card] 1 empty_deck)) ->
              id c' <> id demo_card).
Proof.
  assert (H : currentCard [demo_card] empty_deck = Some demo_card) by (vm_compute; reflexivity).
  split; [exact H|]. exact (swipe_moves_past_current [demo_card] 1 empty_deck demo_card H).
Defined.

(** A skip (swipe up) does not move past an unseen card: [buildQueue]
    never drops unseen cards, so an unseen current card stays the
    current card; a seen current card leaves the queue. *)
Theorem swipeUp_keeps_unseen_current (cards : list CodeCard) (d : DeckState) (c : CodeCard)
    (Hcur : currentCard cards d = Some c) :
  (is_unseen (progress d) c = true -> currentCard cards (handleSwipeUp cards d) = Some c) /\
  (is_unseen (progress d) c = false ->
   forall c', In c' (queue cards (handleSwipeUp cards d)) -> id c' <> id c).
Proof.
  unfold handleSwipeUp. rewrite Hcur. split.
  - intros Hu. unfold currentCard, queue in *. simpl.
    destruct (buildQueue_unseen_prefix (progress d) (lastSwipedId d) cards) as [r1 [E1 F1]].
    destruct (buildQueue_unseen_prefix (progress d) (Some (id c)) cards) as [r2 [E2 _]].
    rewrite E1 in Hcur. rewrite E2.
    destruct (List.filter (is_unseen (progress d)) cards) as [|x u]; [|exact Hcur].
    exfalso. simpl in Hcur. destruct r1 as [|y r1]; [discriminate|].
    injection Hcur as ->. apply Forall_cons_iff in F1 as [F1 _]. congruence.
  - intros Hu. apply queue_drops_acted; [|reflexivity].
    simpl. unfold is_unseen in Hu. destruct (progress d !! id c); [eexists; reflexivity|discriminate].
Qed.

Lemma swipeUp_keeps_unseen_current_witness :
  currentCard [demo_card] empty_deck = Some demo_card /\
  is_unseen (progress empty_deck) demo_card = true /\
  currentCard [demo_card] (handleSwipeUp [demo_card] empty_deck) = Some demo_card.
Proof.
  assert (H : currentCard [demo_card] empty_deck = Some demo_card) by (vm_compute; reflexivity).
  assert (Hu : is_unseen (progress empty_deck) demo_card = true) by reflexivity.
  split; [exact H|]. split; [exact Hu|].
  exact (proj1 (swipeUp_keeps_unseen_current [demo_card] empty_deck demo_card H) Hu).
Defined.

(** [restart] brings back the whole deck: the queue is the input cards
    in their input order, the mastered counter is 0 and [allMastered]
    is false. *)
Theorem restart_full_deck (cards : list CodeCard) (d : DeckState) :
  queue cards (restart d) = cards /\
  mastered_count (progress (restart d)) = 0%nat /\
  allMastered cards (progress (restart d)) = false.
Proof.
  split; [|split; [reflexivity|]].
  - unfold queue, restart, buildQueue. simpl.
    rewrite (filter_all_true (is_unseen ∅)), (filter_all_false (fun c => is_needsWork ∅ c && _)),
      (filter_all_false (fun c => is_mastered ∅ c && _)).
    + simpl. apply app_nil_r.
    + apply List.Forall_forall. intros x _. reflexivity.
    + apply List.Forall_forall. intros x _. reflexivity.
    + apply List.Forall_forall. intros x _. reflexivity.
  - unfold allMastered. simpl. destruct cards; reflexivity.
Qed.

(** Progress is stored per repository: two repository names share a
    storage key only if they are equal. *)
Theorem storageKey_injective (a b : string) (H : storageKey a = storageKey b) : a = b.
Proof. exact (append_cancel_l _ _ _ H). Qed.

Lemma storageKey_injective_witness :
  storageKey "facebook/react" = storageKey "facebook/react" /\ "facebook/react" = "facebook/react".
Proof.
  assert (H : storageKey "facebook/react" = storageKey "facebook/react") by reflexivity.
  split; [exact H|]. exact (storageKey_injective _ _ H).
Defined.

End StoreClaims.

Module StoreV2Facts.
Import Deck StoreV2.

Definition seen0 (pm : gmap string CardProgress) (k : string) : Z :=
  match pm !! k with Some p => seen p | None => 0 end.

Lemma rated_cons (k : string) (c : CodeCard) (a : Action) (t : Z) acts :
  rated k ((c, a, t) :: acts) =
    if String.eqb (id c) k && match a with Skip => false | _ => true end
    then a :: rated k acts else rated k acts.
Proof. unfold rated; simpl. destruct (_ && _); reflexivity. Qed.

Lemma run_cons (c : CodeCard) (a : Action) (t : Z) acts d :
  run ((c, a, t) :: acts) d = run acts (fst (step c t a d)).
Proof. reflexivity. Qed.

Lemma run_rated (acts : list (CodeCard * Action * Z)) :
  forall (d : DeckState) (k : string),
  match rated k acts with
  | [] => progress (run acts d) !! k = progress d !! k
  | r => exists p, progress (run acts d) !! k = Some p /\
           seen p = seen0 (progress d) k + Z.of_nat (length r) /\
           (mastered p = true <->
              List.last r Skip = Confirm /\ 3 <= seen0 (progress d) k + Z.of_nat (length r))
  end.
Proof.
  induction acts as [|[[c a] t] acts IH]; intros d k; [reflexivity|].
  rewrite rated_cons, run_cons.
  destruct (String.eqb_spec (id c) k) as [<-|Hne]; simpl andb.
  - destruct a; cbn iota.
    + (* confirm *)
      specialize (IH (fst (step c t Confirm d)) (id c)).
      destruct (DeckFacts.swipeRight_entry c t d) as [He _].
      assert (Hs0 : seen0 (progress (fst (step c t Confirm d))) (id c) = seen0 (progress d) (id c) + 1).
      { unfold seen0. simpl step. rewrite He. reflexivity. }
      rewrite Hs0 in IH.
      destruct (rated (id c) acts) as [|a' r] eqn:Hr.
      * rewrite IH. simpl step. rewrite He. eexists; split; [reflexivity|]. simpl.
        fold (seen0 (progress d) (id c)). split; [lia|].
        rewrite Z.geb_le. split; [intros H; split; [reflexivity|lia] | intros [_ H]; lia].
      * destruct IH as [p [Hp [Hs Hm]]]. exists p. split; [exact Hp|].
        simpl length in *. split; [lia|]. rewrite Hm.
        change (List.last (Confirm :: a' :: r) Skip) with (List.last (a' :: r) Skip).
        simpl length in *. split; intros [H1 H2]; (split; [exact H1|lia]).
    + (* reject *)
      specialize (IH (fst (step c t Reject d)) (id c)).
      assert (He : progress (fst (step c t Reject d)) !! id c =
        Some {| cardId := id c; seen := seen0 (progress d) (id c) + 1; mastered := false;
                lastSeen := t |}).
      { simpl. rewrite lookup_insert_eq. reflexivity. }
      assert (Hs0 : seen0 (progress (fst (step c t Reject d))) (id c) = seen0 (progress d) (id c) + 1).
      { unfold seen0 at 1. rewrite He. reflexivity. }
      rewrite Hs0 in IH.
      destruct (rated (id c) acts) as [|a' r] eqn:Hr.
      * rewrite IH, He. eexists; split; [reflexivity|]. simpl.
        split; [lia|]. split; [discriminate|intros [H _]; discriminate].
      * destruct IH as [p [Hp [Hs Hm]]]. exists p. split; [exact Hp|].
        simpl length in *. split; [lia|]. rewrite Hm.
        change (List.last (Reject :: a' :: r) Skip) with (List.last (a' :: r) Skip).
        simpl length in *. split; intros [H1 H2]; (split; [exact H1|lia]).
    + (* skip *)
      apply (IH (swipeUp c d) (id c)).
  - assert (Hk : progress (fst (step c t a d)) !! k = progress d !! k).
    { destruct a; simpl.
      - unfold swipeRight, swipeRight_update. simpl. apply lookup_insert_ne. congruence.
      - apply lookup_insert_ne. congruence.
      - reflexivity. }
    specialize (IH (fst (step c t a d)) k).
    assert (Hs0 : seen0 (progress (fst (step c t a d))) k = seen0 (progress d) k).
    { unfold seen0. rewrite Hk. reflexivity. }
    rewrite Hs0, Hk in IH. exact IH.
Qed.

End StoreV2Facts.

Module StoreV2Claims.
Import Deck StoreV2 StoreV2Facts.

(** In the second version of [useCardDeck], where a reject adds one to
    [seen], the counter is never reset: from an empty progress map, a
    card's [seen] is the number of confirms and rejects it received (no
    entry if none), and it is mastered exactly when its last confirm or
    reject was a confirm and that number is at least 3. *)
Theorem v2_seen_counts_every_rating (acts : list (CodeCard * Action * Z)) (d : DeckState)
    (Hfresh : progress d = ∅) (k : string) :
  match rated k acts with
  | [] => progress (run acts d) !! k = None
  | r => exists p, progress (run acts d) !! k = Some p /\
           seen p = Z.of_nat (length r) /\
           (mastered p = true <-> List.last r Skip = Confirm /\ (3 <= length r)%nat)
  end.
Proof.
  pose proof (run_rated acts d k) as H. unfold seen0 in H.
  rewrite Hfresh, lookup_empty in H.
  destruct (rated k acts) as [|a r]; [exact H|].
  destruct H as [p [Hp [Hs Hm]]]. exists p. split; [exact Hp|]. split; [lia|].
  rewrite Hm. split; intros [H1 H2]; (split; [exact H1|lia]).
Qed.

Lemma v2_seen_counts_every_rating_witness :
  progress empty_deck = ∅ /\
  match rated (id demo_card) [(demo_card, Confirm, 1); (demo_card, Confirm, 2);
                              (demo_card, Reject, 3); (demo_card, Confirm, 4)] with
  | [] => progress (run [(demo_card, Confirm, 1); (demo_card, Confirm, 2);
                         (demo_card, Reject, 3); (demo_card, Confirm, 4)] empty_deck)
            !! id demo_card = None
  | r => exists p, progress (run [(demo_card, Confirm, 1); (demo_card, Confirm, 2);
                                  (demo_card, Reject, 3); (demo_card, Confirm, 4)] empty_deck)
                     !! id demo_card = Some p /\
           seen p = Z.of_nat (length r) /\
           (mastered p = true <-> List.last r Skip = Confirm /\ (3 <= length r)%nat)
  end.
Proof.
  split; [reflexivity|].
  exact (v2_seen_counts_every_rating
           [(demo_card, Confirm, 1); (demo_card, Confirm, 2);
            (demo_card, Reject, 3); (demo_card, Confirm, 4)] empty_deck eq_refl (id demo_card)).
Defined.

End StoreV2Claims.

Module RecentFacts.
Import Recent.

Lemma filter_sublist_of {A : Type} (P : A -> bool) (l : list A) :
  List.filter P l `sublist_of` l.
Proof.
  induction l as [|x l IH]; simpl; [constructor|].
  destruct (P x); [apply sublist_skip | apply sublist_cons]; exact IH.
Qed.

Lemma sublist_map_of {A B : Type} (f : A -> B) (l1 l2 : list A) :
  l1 `sublist_of` l2 -> map f l1 `sublist_of` map f l2.
Proof.
  induction 1; simpl; [constructor | apply sublist_skip | apply sublist_cons]; assumption.
Qed.

(** The replayed storage after a sequence of [addRecent] calls. *)
Definition replay (stored : option (list RecentRepo)) (adds : list (RecentEntry * Z))
    : option (list RecentRepo) :=
  fold_left (fun s x => addRecent s (fst x) (snd x)) adds stored.

Lemma addRecent_shape (s : option (list RecentRepo)) (e : RecentEntry) (now : Z) :
  exists rest, getRecent (addRecent s e now) = stamp e now :: rest /\
    rest `sublist_of` getRecent s /\
    Forall (fun r => fullName r <> e_fullName e) rest /\
    (length rest <= 7)%nat /\
    (NoDup (map fullName (getRecent s)) -> NoDup (map fullName (stamp e now :: rest))).
Proof.
  set (flt := List.filter (fun r => negb (String.eqb (fullName r) (e_fullName e))) (getRecent s)).
  exists (take 7 flt). split; [reflexivity|].
  assert (Hsub : take 7 flt `sublist_of` getRecent s).
  { etrans; [apply sublist_take | apply filter_sublist_of]. }
  assert (Hne : Forall (fun r => fullName r <> e_fullName e) (take 7 flt)).
  { apply List.Forall_forall. intros r Hr.
    apply list_elem_of_In in Hr.
    assert (Hi : r ∈ flt) by (eapply elem_of_sublist; [exact Hr | apply sublist_take]).
    apply list_elem_of_In, filter_In in Hi as [_ Hi]. apply negb_true_iff, String.eqb_neq in Hi. exact Hi. }
  split; [exact Hsub|]. split; [exact Hne|]. split; [rewrite length_take; lia|].
  intros Hnd. simpl. constructor.
  - rewrite list_elem_of_In, in_map_iff. intros [r [Hr Hin]].
    rewrite List.Forall_forall in Hne. exact (Hne r Hin Hr).
  - eapply sublist_NoDup; [exact Hnd|]. apply sublist_map_of, Hsub.
Qed.

Lemma filter_other_all (name : string) (l : list RecentRepo) :
  Forall (fun r => fullName r <> name) l ->
  List.filter (fun r => negb (String.eqb (fullName r) name)) l = l.
Proof.
  induction l as [|r l IH]; intros H; [reflexivity|].
  apply Forall_cons in H as [Hr Hl]. simpl.
  apply String.eqb_neq in Hr. rewrite Hr. simpl. f_equal. exact (IH Hl).
Qed.

(** On a list with distinct names, dropping the entries named [name]
    drops at most one entry. *)
Lemma filter_other_unique (name : string) (l : list RecentRepo) :
  NoDup (map fullName l) ->
  (Forall (fun r => fullName r <> name) l /\
   List.filter (fun r => negb (String.eqb (fullName r) name)) l = l) \/
  (exists a r b, l = a ++ r :: b /\ fullName r = name /\
   List.filter (fun r => negb (String.eqb (fullName r) name)) l = a ++ b).
Proof.
  induction l as [|x l IH]; intros Hnd; [left; split; [constructor|reflexivity]|].
  simpl in Hnd. apply NoDup_cons in Hnd as [Hx Hnd].
  destruct (String.eqb_spec (fullName x) name) as [Heq|Hne].
  - right. exists [], x, l. split; [reflexivity|]. split; [exact Heq|].
    simpl. rewrite (proj2 (String.eqb_eq _ _) Heq). simpl.
    apply filter_other_all. apply List.Forall_forall. intros r Hr Hrn.
    apply Hx. apply list_elem_of_In, in_map_iff. exists r. split; [congruence|exact Hr].
  - simpl. rewrite (proj2 (String.eqb_neq _ _) Hne). simpl.
    destruct (IH Hnd) as [[Hall Hf]|(a & r & b & Hl & Hr & Hf)].
    + left. split; [constructor; assumption|]. f_equal. exact Hf.
    + right. exists (x :: a), r, b. split; [rewrite Hl; reflexivity|].
      split; [exact Hr|]. rewrite Hf. reflexivity.
Qed.

(** Every stored list reached by [addRecent] calls has distinct names. *)
Lemma replay_NoDup (adds : list (RecentEntry * Z)) (s : option (list RecentRepo)) :
  NoDup (map fullName (getRecent s)) -> NoDup (map fullName (getRecent (replay s adds))).
Proof.
  revert s. induction adds as [|[e' t'] adds IH]; intros s0 Hs; [exact Hs|].
  simpl. apply IH. destruct (addRecent_shape s0 e' t') as [r [Hr [_ [_ [_ Hnd]]]]].
  rewrite Hr. apply Hnd, Hs.
Qed.

End RecentFacts.

Module RecentClaims.
Import Recent RecentFacts.

(** [addRecent] keeps the recent list a most-recent-first list of at
    most 8 distinct repositories: after any sequence of additions
    starting from no stored list, adding a repository puts it first
    with the current time, followed by the first 7 other entries of the
    previous list in their order: the whole previous list when it does
    not hold that repository, the previous list without its one entry
    of the same [fullName] otherwise. The list holds at most 8 entries
    and never two with the same [fullName]. *)
Theorem addRecent_front_distinct (adds : list (RecentEntry * Z)) (e : RecentEntry) (now : Z) :
  let s := replay None adds in
  let l := getRecent (addRecent s e now) in
  (exists rest, l = stamp e now :: rest /\
     ((Forall (fun r => fullName r <> e_fullName e) (getRecent s) /\
       rest = take (MAX - 1) (getRecent s)) \/
      (exists a r b, getRecent s = a ++ r :: b /\ fullName r = e_fullName e /\
                     rest = take (MAX - 1) (a ++ b)))) /\
  (length l <= MAX)%nat /\ NoDup (map fullName l).
Proof.
  intros s l.
  assert (Hs : NoDup (map fullName (getRecent s))) by (apply replay_NoDup; constructor).
  destruct (addRecent_shape s e now) as [rest [Hl [_ [_ [Hlen Hnd]]]]].
  split.
  - exists rest. split; [exact Hl|].
    assert (Hrest : rest = take 7 (List.filter (fun r => negb (String.eqb (fullName r) (e_fullName e)))
                                   (getRecent s))).
    { change (getRecent (addRecent s e now)) with
        (stamp e now :: take 7 (List.filter (fun r => negb (String.eqb (fullName r) (e_fullName e)))
                                  (getRecent s))) in Hl.
      injection Hl as Hl. symmetry. exact Hl. }
    destruct (filter_other_unique (e_fullName e) (getRecent s) Hs)
      as [[Hall Hf]|(a & r & b & Heq & Hr & Hf)].
    + left. split; [exact Hall|]. rewrite Hrest, Hf. reflexivity.
    + right. exists a, r, b. split; [exact Heq|]. split; [exact Hr|].
      rewrite Hrest, Hf. reflexivity.
  - unfold l. rewrite Hl. split; [unfold MAX; simpl; lia|].
    apply Hnd, Hs.
Qed.

End RecentClaims.

(* ----------------------------------------------------------------- *)
(** ** GitHub client *)

Lemma list_ascii_of_string_app (a b : string) :
  list_ascii_of_string (String.append a b) = list_ascii_of_string a ++ list_ascii_of_string b.
Proof. induction a as [|c a IH]; simpl; [reflexivity|]. rewrite IH. reflexivity. Qed.

Module GitHubFacts.
Import Chars Extract GitHub.

Lemma take_while_app (p : ascii -> bool) (x l : list ascii) :
  Forall (fun c => p c = true) x ->
  (match l with [] => True | c :: _ => p c = false end) ->
  take_while p (x ++ l) = x.
Proof.
  intros Hx Hl. induction Hx as [|c x Hc _ IH]; simpl.
  - destruct l as [|c l]; simpl; [reflexivity|]. rewrite Hl. reflexivity.
  - rewrite Hc, IH. reflexivity.
Qed.

Lemma take_while_drop (p : ascii -> bool) (l : list ascii) :
  take_while p l ++ drop (length (take_while p l)) l = l /\
  Forall (fun c => p c = true) (take_while p l).
Proof.
  induction l as [|c l IH]; simpl; [split; [reflexivity|constructor]|].
  destruct (p c) eqn:Hc; simpl; [|split; [reflexivity|constructor]].
  destruct IH as [IH1 IH2]. split; [rewrite IH1; reflexivity|constructor; assumption].
Qed.

Lemma prefixb_self (p s : list ascii) : prefixb p (p ++ s) = true.
Proof. induction p as [|a p IH]; simpl; [reflexivity|]. rewrite Ascii.eqb_refl. exact IH. Qed.

Lemma prefixb_In (p s : list ascii) (c : ascii) : prefixb p s = true -> In c p -> In c s.
Proof.
  intros H. destruct (GenerateFacts.prefixb_app p s H) as [rest ->].
  intros Hc. apply in_or_app. left. exact Hc.
Qed.

Lemma take_while_In (p : ascii -> bool) (l : list ascii) (c : ascii) :
  In c (take_while p l) -> In c l /\ p c = true.
Proof.
  induction l as [|d l IH]; simpl; [tauto|].
  destruct (p d) eqn:Hd; simpl; [|tauto].
  intros [<-|H]; [tauto|]. destruct (IH H). tauto.
Qed.

Lemma drop_In {A : Type} (n : nat) (l : list A) (x : A) : In x (drop n l) -> In x l.
Proof.
  revert l. induction n as [|n IH]; intros [|y l]; simpl; try tauto.
  intros H. right. exact (IH l H).
Qed.

Definition slash_count (l : list ascii) : nat := length (List.filter is_slash l).

Lemma slash_count_app (a b : list ascii) : slash_count (a ++ b) = (slash_count a + slash_count b)%nat.
Proof. unfold slash_count. rewrite List.filter_app, length_app. reflexivity. Qed.

Lemma slash_count_drop (k : nat) (l : list ascii) : (slash_count (drop k l) <= slash_count l)%nat.
Proof.
  rewrite <- (take_drop k l) at 2. rewrite slash_count_app. lia.
Qed.

Lemma slash_count_In (l : list ascii) : (1 <= slash_count l)%nat -> In "/"%char l.
Proof.
  unfold slash_count. induction l as [|c l IH]; simpl; [lia|].
  destruct (is_slash c) eqn:Hc; simpl.
  - intros _. left. apply Ascii.eqb_eq in Hc. congruence.
  - intros H. right. exact (IH H).
Qed.

Lemma slash_count_none (l : list ascii) :
  Forall (fun c => is_slash c = false) l -> slash_count l = 0%nat.
Proof.
  unfold slash_count. induction 1 as [|c l Hc _ IH]; simpl; [reflexivity|].
  rewrite Hc. exact IH.
Qed.

Lemma not_slash_Forall (l : list ascii) :
  ~ In "/"%char l <-> Forall (fun c => is_slash c = false) l.
Proof.
  rewrite List.Forall_forall. split.
  - intros H c Hc. unfold is_slash. apply Ascii.eqb_neq. intros ->. exact (H Hc).
  - intros H Hin. specialize (H _ Hin). unfold is_slash in H. rewrite Ascii.eqb_refl in H.
    discriminate.
Qed.

Lemma seg_no_slash (t : list ascii) : ~ In "/"%char (seg t).
Proof.
  intros Hin. apply take_while_In in Hin as [_ H]. discriminate.
Qed.

(** What a successful [url_groups] matched. *)
Lemma url_groups_some (t : list ascii) (g1 g2 : list ascii) :
  url_groups t = Some (g1, g2) ->
  g1 <> [] /\ g2 <> [] /\ ~ In "/"%char g1 /\ ~ In "/"%char g2 /\ (2 <= slash_count t)%nat.
Proof.
  unfold url_groups. destruct (prefixb _ t) eqn:Hp; [|discriminate].
  destruct (GenerateFacts.prefixb_app _ _ Hp) as [rest ->].
  change (drop 11 (list_ascii_of_string "github.com/" ++ rest)) with rest.
  destruct (take_while_drop (fun c => negb (is_slash c)) rest) as [Hsplit _].
  fold (seg rest) in Hsplit.
  destruct (seg rest) as [|a l] eqn:Hg; [discriminate|].
  destruct (drop (length (a :: l)) rest) as [|c t2] eqn:Hd; [discriminate|].
  destruct (is_slash c) eqn:Hc; [|discriminate].
  pose proof (seg_no_slash t2) as Hn2.
  destruct (seg t2) as [|b l2] eqn:Hg2; [discriminate|].
  intros H. injection H as <- <-.
  pose proof (seg_no_slash rest) as Hn1. rewrite Hg in Hn1.
  split; [discriminate|]. split; [discriminate|]. split; [exact Hn1|]. split; [exact Hn2|].
  rewrite slash_count_app. rewrite <- Hsplit, slash_count_app.
  unfold slash_count at 3. simpl. rewrite Hc. simpl.
  change (slash_count (list_ascii_of_string "github.com/")) with 1%nat. lia.
Qed.

Lemma url_at_some (s : list ascii) (g : list ascii * list ascii) :
  url_at s = Some g -> exists k, url_groups (drop k s) = Some g.
Proof.
  unfold url_at.
  destruct (prefixb _ s); [destruct (url_groups (drop 8 s)) eqn:H8; [intros [= <-]; eauto|]|].
  all: destruct (prefixb _ s); [destruct (url_groups (drop 7 s)) eqn:H7; [intros [= <-]; eauto|]|].
  all: intros H; exists 0%nat; exact H.
Qed.

Lemma url_match_some (s : list ascii) (g : list ascii * list ascii) :
  url_match s = Some g -> exists k, url_groups (drop k s) = Some g.
Proof.
  induction s as [|c s IH]; simpl.
  - destruct (url_at []) eqn:H; [intros [= <-]; apply url_at_some, H | discriminate].
  - destruct (url_at (c :: s)) eqn:H; [intros [= <-]; apply url_at_some, H|].
    intros Hs. destruct (IH Hs) as [k Hk]. exists (S k). exact Hk.
Qed.

Lemma url_match_groups (s g1 g2 : list ascii) :
  url_match s = Some (g1, g2) ->
  g1 <> [] /\ g2 <> [] /\ ~ In "/"%char g1 /\ ~ In "/"%char g2 /\ (2 <= slash_count s)%nat.
Proof.
  intros H. destruct (url_match_some _ _ H) as [k Hk].
  destruct (url_groups_some _ _ _ Hk) as (H1 & H2 & H3 & H4 & H5).
  repeat split; try assumption. pose proof (slash_count_drop k s). lia.
Qed.

Lemma short_match_groups (s g1 g2 : list ascii) :
  short_match s = Some (g1, g2) ->
  g1 <> [] /\ g2 <> [] /\ ~ In "/"%char g1 /\ ~ In "/"%char g2 /\ (1 <= slash_count s)%nat.
Proof.
  unfold short_match.
  destruct (take_while_drop short_ok s) as [Hsplit Hok].
  destruct (take_while short_ok s) as [|a l] eqn:Hg; [discriminate|].
  destruct (drop (length (a :: l)) s) as [|c [|d r]] eqn:Hd; try discriminate.
  destruct (is_slash c && forallb short_ok (d :: r)) eqn:Hc; [|discriminate].
  apply andb_prop in Hc as [Hc Hr]. intros H. injection H as <- <-.
  assert (Hns : forall l', Forall (fun x => short_ok x = true) l' -> ~ In "/"%char l').
  { intros l' Hl'. apply not_slash_Forall. eapply Forall_impl; [exact Hl'|].
    intros x Hx. unfold short_ok in Hx. apply andb_prop in Hx as [Hx _].
    apply negb_true_iff in Hx. exact Hx. }
  split; [discriminate|]. split; [discriminate|].
  split; [exact (Hns _ Hok)|]. split; [apply Hns, List.Forall_forall; apply forallb_forall, Hr|].
  rewrite <- Hsplit, slash_count_app. unfold slash_count at 2. simpl. rewrite Hc. simpl. lia.
Qed.

(** The drop-while loops [trim_start] and [drop_slashes] stop at the
    first character they keep. *)
Section DropWhile.
Variable P : ascii -> bool.
Variable f : list ascii -> list ascii.
Hypothesis f_nil : f [] = [].
Hypothesis f_cons : forall c l, f (c :: l) = if P c then f l else c :: l.

Lemma dropw_app_stop (l : list ascii) (c : ascii) (X : list ascii) :
  P c = false -> exists j k, l = j ++ k /\ f (l ++ c :: X) = k ++ c :: X.
Proof.
  intros Hc. induction l as [|d l IH].
  - exists [], []. split; [reflexivity|]. simpl. rewrite f_cons, Hc. reflexivity.
  - simpl. rewrite f_cons. destruct (P d).
    + destruct IH as [j [k [-> Hf]]]. exists (d :: j), k. split; [reflexivity|exact Hf].
    + exists [], (d :: l). split; reflexivity.
Qed.

Lemma rev_dropw_app (P0 : list ascii) (c : ascii) (rest : list ascii) :
  P c = false ->
  exists q q', rest = q ++ q' /\ rev (f (rev ((P0 ++ [c]) ++ rest))) = (P0 ++ [c]) ++ q.
Proof.
  intros Hc.
  rewrite rev_app_distr, rev_app_distr. simpl.
  destruct (dropw_app_stop (rev rest) c (rev P0) Hc) as [j [k [Hjk Hf]]].
  rewrite Hf. exists (rev k), (rev j). split.
  - rewrite <- (rev_involutive rest), Hjk, rev_app_distr. reflexivity.
  - rewrite rev_app_distr. simpl. rewrite rev_involutive, <- app_assoc. reflexivity.
Qed.

Lemma dropw_In (l : list ascii) (x : ascii) : In x (f l) -> In x l.
Proof.
  induction l as [|d l IH]; [rewrite f_nil; tauto|].
  rewrite f_cons. destruct (P d); [intros H; right; exact (IH H)|tauto].
Qed.

End DropWhile.

Lemma trimmed_In (s : list ascii) (x : ascii) :
  In x (strip_trailing_slashes (trim s)) -> In x s.
Proof.
  unfold strip_trailing_slashes, trim. intros H.
  rewrite <- in_rev in H. apply (dropw_In is_slash drop_slashes eq_refl (fun _ _ => eq_refl)) in H.
  rewrite <- !in_rev in H. apply (dropw_In is_js_space trim_start eq_refl (fun _ _ => eq_refl)) in H.
  rewrite <- in_rev in H. exact (dropw_In is_js_space trim_start eq_refl (fun _ _ => eq_refl) _ _ H).
Qed.

(** Trimming and stripping the trailing slashes of [P ++ rest], when [P]
    starts with a non-space and ends with a character that is neither a
    space nor a slash, keeps [P] and a prefix of [rest]. *)
Lemma trimmed_app (P0 : list ascii) (c : ascii) (rest : list ascii) :
  short_ok c = true ->
  (match P0 ++ [c] with d :: _ => is_js_space d = false | [] => True end) ->
  exists q q', rest = q ++ q' /\
    strip_trailing_slashes (trim ((P0 ++ [c]) ++ rest)) = (P0 ++ [c]) ++ q.
Proof.
  intros Hc Hd. unfold short_ok in Hc. apply andb_prop in Hc as [Hc1 Hc2].
  apply negb_true_iff in Hc1, Hc2.
  assert (Ht : trim_start ((P0 ++ [c]) ++ rest) = (P0 ++ [c]) ++ rest).
  { destruct (P0 ++ [c]) as [|d l] eqn:E; [destruct P0; discriminate|].
    simpl. rewrite Hd. reflexivity. }
  unfold trim. rewrite Ht.
  destruct (rev_dropw_app is_js_space trim_start (fun _ _ => eq_refl) P0 c rest Hc2)
    as [q1 [q1' [Hr1 H1]]].
  rewrite H1. unfold strip_trailing_slashes.
  destruct (rev_dropw_app is_slash drop_slashes (fun _ _ => eq_refl) P0 c q1 Hc1)
    as [q2 [q2' [Hr2 H2]]].
  rewrite H2. exists q2, (q2' ++ q1'). split; [|reflexivity].
  rewrite Hr1, Hr2, app_assoc. reflexivity.
Qed.

(** [url_groups] on a well-formed [github.com/owner/repo...]. *)
Lemma url_groups_ok (o r q : list ascii) :
  o <> [] -> ~ In "/"%char o -> r <> [] -> ~ In "/"%char r ->
  (match q with [] => True | c :: _ => c = "/"%char end) ->
  url_groups (list_ascii_of_string "github.com/" ++ o ++ "/"%char :: r ++ q) = Some (o, r).
Proof.
  intros Ho Hso Hr Hsr Hq. unfold url_groups. rewrite prefixb_self.
  change (drop 11 (list_ascii_of_string "github.com/" ++ o ++ "/"%char :: r ++ q))
    with (o ++ "/"%char :: r ++ q).
  apply not_slash_Forall in Hso, Hsr.
  assert (Hseg1 : seg (o ++ "/"%char :: r ++ q) = o).
  { apply take_while_app; [|reflexivity].
    eapply Forall_impl; [exact Hso|]. intros x Hx. rewrite Hx. reflexivity. }
  assert (Hseg2 : seg (r ++ q) = r).
  { apply take_while_app.
    - eapply Forall_impl; [exact Hsr|]. intros x Hx. rewrite Hx. reflexivity.
    - destruct q as [|c q]; [exact I|]. subst c. reflexivity. }
  cbv zeta. rewrite Hseg1.
  destruct o as [|a o]; [contradiction|]. rewrite drop_app_length. simpl is_slash.
  cbv iota beta. rewrite Hseg2.
  destruct r as [|b r]; [contradiction|]. reflexivity.
Qed.

Lemma url_at_scheme (scheme : string) (Y : list ascii) (g : list ascii * list ascii) :
  In scheme ["https://"; "http://"; ""] ->
  url_groups (list_ascii_of_string "github.com/" ++ Y) = Some g ->
  url_at (list_ascii_of_string scheme ++ list_ascii_of_string "github.com/" ++ Y) = Some g.
Proof.
  intros Hs Hg. unfold url_at.
  destruct Hs as [<-|[<-|[<-|[]]]].
  - rewrite prefixb_self.
    rewrite (drop_app_length' (list_ascii_of_string "https://")) by reflexivity.
    rewrite Hg. reflexivity.
  - assert (Hf : prefixb (list_ascii_of_string "https://")
                   (list_ascii_of_string "http://" ++ list_ascii_of_string "github.com/" ++ Y)
                 = false) by reflexivity.
    rewrite Hf, prefixb_self.
    rewrite (drop_app_length' (list_ascii_of_string "http://")) by reflexivity.
    rewrite Hg. reflexivity.
  - assert (Hf1 : prefixb (list_ascii_of_string "https://")
                   (list_ascii_of_string "" ++ list_ascii_of_string "github.com/" ++ Y)
                 = false) by reflexivity.
    assert (Hf2 : prefixb (list_ascii_of_string "http://")
                   (list_ascii_of_string "" ++ list_ascii_of_string "github.com/" ++ Y)
                 = false) by reflexivity.
    rewrite Hf1, Hf2. exact Hg.
Qed.

Lemma url_match_at (s : list ascii) (g : list ascii * list ascii) :
  url_at s = Some g -> url_match s = Some g.
Proof.
  intros H.
  assert (E : url_match s = match url_at s with
                            | Some g => Some g
                            | None => match s with [] => None | _ :: s' => url_match s' end
                            end) by (destruct s; reflexivity).
  rewrite E, H. reflexivity.
Qed.

Lemma short_ok_Forall_no_slash (l : list ascii) :
  Forall (fun c => short_ok c = true) l -> Forall (fun c => is_slash c = false) l.
Proof.
  intros H. eapply Forall_impl; [exact H|]. intros x Hx.
  unfold short_ok in Hx. apply andb_prop in Hx as [Hx _]. apply negb_true_iff, Hx.
Qed.

Lemma single_app (c : ascii) (l : list ascii) : [c] ++ l = c :: l.
Proof. reflexivity. Qed.

Lemma string_nonempty (s : string) : s <> "" -> list_ascii_of_string s <> [].
Proof. destruct s; simpl; congruence. Qed.

Lemma string_of_nonempty (l : list ascii) : l <> [] -> string_of_list_ascii l <> "".
Proof. destruct l; simpl; congruence. Qed.

(** The [if] chain of [keep_entry] as one conjunction. *)
Lemma if_chain (a b1 b2 b3 b4 b5 b6 b7 r : bool) :
  (if negb a then false else if b1 then false else if b2 then false else if b3 then false
   else if b4 then false else if b5 then false else if b6 then false else if b7 then false
   else r)
  = a && negb b1 && negb b2 && negb b3 && negb b4 && negb b5 && negb b6 && negb b7 && r.
Proof. destruct a, b1, b2, b3, b4, b5, b6, b7; reflexivity. Qed.

(** An extension is in [CODE_EXTENSIONS] exactly when the table of
    [detectLanguage] maps it to a language: a string other than
    ["text"], not an inherited member. *)
Lemma ext_code (ext : string) :
  existsb (String.eqb (String "." ext)) CODE_EXTENSIONS =
  match lang_of_ext ext with LStr l => negb (String.eqb l "text") | LProto _ => false end.
Proof.
  unfold lang_of_ext. remember (existsb (String.eqb ext) proto_members) as pm eqn:Hpm.
  unfold CODE_EXTENSIONS. simpl existsb. rewrite !orb_false_r.
  destruct (String.eqb ext "ts"); [reflexivity|].
  destruct (String.eqb ext "tsx"); [reflexivity|].
  destruct (String.eqb ext "js"); [reflexivity|].
  destruct (String.eqb ext "jsx"); [reflexivity|].
  destruct (String.eqb ext "py"); [reflexivity|].
  destruct (String.eqb ext "rs"); [reflexivity|].
  destruct (String.eqb ext "go"); [reflexivity|].
  destruct (String.eqb ext "swift"); [reflexivity|].
  destruct (String.eqb ext "kt"); [reflexivity|].
  destruct pm; reflexivity.
Qed.

Lemma keep_entry_eq (e : TreeEntry) :
  keep_entry e =
    match detectLanguage (te_path e) with
    | LStr l => negb (String.eqb l "text")
    | LProto _ => false
    end &&
    negb (includes (list_ascii_of_string (te_path e)) (list_ascii_of_string "__tests__")) &&
    negb (includes (list_ascii_of_string (te_path e)) (list_ascii_of_string ".test.")) &&
    negb (includes (list_ascii_of_string (te_path e)) (list_ascii_of_string ".spec.")) &&
    negb (includes (list_ascii_of_string (te_path e)) (list_ascii_of_string "node_modules")) &&
    negb (includes (list_ascii_of_string (te_path e)) (list_ascii_of_string ".d.ts")) &&
    negb (includes (list_ascii_of_string (te_path e)) (list_ascii_of_string "dist/")) &&
    negb (includes (list_ascii_of_string (te_path e)) (list_ascii_of_string "build/")) &&
    match te_size e with
    | Some n => if negb (n =? 0) && (50000 <? n) then false else true
    | None => true
    end.
Proof.
  unfold keep_entry, detectLanguage.
  set (p := list_ascii_of_string (te_path e)).
  set (ext := string_of_list_ascii (last_segment (split_on "."%char p))).
  change (String.append "." ext) with (String "." ext).
  rewrite ext_code. apply if_chain.
Qed.

(** [fetchFiles]'s loop: each round appends the fetched files of the
    next eight paths. *)
Lemma batch_loop_drop (fetch_one : string -> string -> string -> option string)
    (owner repo : string) (selected : list string) :
  forall fuel i results, (length selected <= i + 8 * fuel)%nat ->
  batch_loop fetch_one owner repo fuel i selected results =
    results ++ filter_some (map (fetch_path fetch_one owner repo) (drop i selected)).
Proof.
  induction fuel as [|fuel IH]; intros i results Hlen; simpl.
  - rewrite drop_ge by lia. simpl. rewrite app_nil_r. reflexivity.
  - destruct (Nat.ltb_spec i (length selected)) as [Hlt|Hge].
    + rewrite IH by lia. rewrite <- app_assoc. f_equal.
      rewrite <- (take_drop 8 (drop i selected)) at 2.
      rewrite map_app. rewrite drop_drop.
      generalize (map (fetch_path fetch_one owner repo) (take 8 (drop i selected))).
      intros l. induction l as [|[x|] l IHl]; simpl; [reflexivity| rewrite IHl; reflexivity | exact IHl].
    + rewrite drop_ge by lia. simpl. rewrite app_nil_r. reflexivity.
Qed.

Lemma filter_some_length {A : Type} (l : list (option A)) : (length (filter_some l) <= length l)%nat.
Proof. induction l as [|[x|] l IH]; simpl; lia. Qed.

End GitHubFacts.

Module GitHubClaims.
Import Chars Extract GitHub GitHubFacts.

(** [parseRepoInput] reads the short form back: for a non-empty owner
    and a non-empty repository name that contain no slash and no white
    space, [parseRepoInput("owner/repo")] is that owner and name. *)
Theorem parseRepoInput_short_roundtrip (owner repo : string)
    (Ho : owner <> "") (Hr : repo <> "")
    (Hok_o : Forall (fun c => short_ok c = true) (list_ascii_of_string owner))
    (Hok_r : Forall (fun c => short_ok c = true) (list_ascii_of_string repo)) :
  parseRepoInput (String.append owner (String.append "/" repo)) = Some (owner, repo).
Proof.
  unfold parseRepoInput. rewrite !list_ascii_of_string_app.
  set (O := list_ascii_of_string owner) in *. set (R := list_ascii_of_string repo) in *.
  change (list_ascii_of_string "/") with ["/"%char]. simpl app.
  apply string_nonempty in Ho, Hr. fold O in Ho. fold R in Hr.
  destruct (exists_last Hr) as [R0 [c HR]].
  assert (Hc : short_ok c = true).
  { rewrite List.Forall_forall in Hok_r. apply Hok_r. rewrite HR. apply in_or_app. right. left. reflexivity. }
  assert (Hhd : match (O ++ "/"%char :: R0) ++ [c] with d :: _ => is_js_space d = false | [] => True end).
  { destruct O as [|o0 O']; [contradiction|]. simpl.
    inversion Hok_o as [|? ? Ho0 _]. unfold short_ok in Ho0.
    apply andb_prop in Ho0 as [_ Ho0]. apply negb_true_iff, Ho0. }
  destruct (trimmed_app (O ++ "/"%char :: R0) c [] Hc Hhd) as [q [q' [Hq Ht]]].
  symmetry in Hq. apply app_eq_nil in Hq as [-> _].
  assert (Hs : O ++ "/"%char :: R = ((O ++ "/"%char :: R0) ++ [c]) ++ []).
  { rewrite app_nil_r, HR, <- app_assoc. reflexivity. }
  rewrite Hs, Ht, <- Hs.
  assert (Hcount : slash_count (O ++ "/"%char :: R) = 1%nat).
  { rewrite slash_count_app. unfold slash_count at 2. simpl.
    fold (slash_count R). rewrite !slash_count_none; [reflexivity|..];
    apply short_ok_Forall_no_slash; assumption. }
  destruct (url_match (O ++ "/"%char :: R)) as [[g1 g2]|] eqn:Hu.
  { exfalso. destruct (url_match_groups _ _ _ Hu) as (_ & _ & _ & _ & H2). lia. }
  unfold short_match.
  rewrite take_while_app by (try assumption; reflexivity).
  destruct O as [|o0 O'] eqn:HO; [contradiction|]. rewrite <- HO, drop_app_length.
  destruct R as [|b R'] eqn:HR'; [contradiction|]. rewrite <- HR'.
  simpl is_slash. rewrite (proj2 (forallb_forall _ _)).
  - simpl andb. cbv iota beta. unfold O, R. rewrite !string_of_list_ascii_of_string. reflexivity.
  - apply List.Forall_forall. rewrite HR'. exact Hok_r.
Qed.


Lemma parseRepoInput_short_roundtrip_witness :
  "vercel" <> "" /\
  parseRepoInput (String.append "vercel" (String.append "/" "next.js")) = Some ("vercel", "next.js").
Proof.
  split; [discriminate|].
  apply (parseRepoInput_short_roundtrip "vercel" "next.js").
  - discriminate.
  - discriminate.
  - apply List.Forall_forall, forallb_forall. reflexivity.
  - apply List.Forall_forall, forallb_forall. reflexivity.
Defined.

(** [parseRepoInput] reads a repository URL back: for an optional
    [https://] or [http://] scheme, a non-empty owner without slash and a
    non-empty repository name without slash or white space, followed by
    nothing or by a further path starting with a slash,
    [parseRepoInput] returns that owner and name. *)
Theorem parseRepoInput_url_roundtrip (scheme owner repo rest : string)
    (Hs : In scheme ["https://"; "http://"; ""])
    (Ho : owner <> "") (Hso : ~ In "/"%char (list_ascii_of_string owner))
    (Hr : repo <> "") (Hok_r : Forall (fun c => short_ok c = true) (list_ascii_of_string repo))
    (Hrest : rest = "" \/ exists t, rest = String "/" t) :
  parseRepoInput (String.append scheme (String.append "github.com/"
                    (String.append owner (String.append "/" (String.append repo rest)))))
  = Some (owner, repo).
Proof.
  unfold parseRepoInput. rewrite !list_ascii_of_string_app.
  set (S := list_ascii_of_string scheme). set (G := list_ascii_of_string "github.com/").
  set (O := list_ascii_of_string owner) in *. set (R := list_ascii_of_string repo) in *.
  set (T := list_ascii_of_string rest).
  change (list_ascii_of_string "/") with ["/"%char]. rewrite !single_app.
  apply string_nonempty in Ho, Hr. fold O in Ho. fold R in Hr.
  destruct (exists_last Hr) as [R0 [c HR]].
  assert (Hc : short_ok c = true).
  { rewrite List.Forall_forall in Hok_r. apply Hok_r. rewrite HR. apply in_or_app. right. left. reflexivity. }
  assert (Hhd : match (S ++ G ++ O ++ "/"%char :: R0) ++ [c] with
                | d :: _ => is_js_space d = false | [] => True end).
  { unfold S. destruct Hs as [<-|[<-|[<-|[]]]]; reflexivity. }
  destruct (trimmed_app (S ++ G ++ O ++ "/"%char :: R0) c T Hc Hhd) as [q [q' [Hq Ht]]].
  assert (E : S ++ G ++ O ++ "/"%char :: R ++ T = ((S ++ G ++ O ++ "/"%char :: R0) ++ [c]) ++ T).
  { rewrite HR. rewrite <- !app_assoc. reflexivity. }
  rewrite E, Ht.
  assert (E2 : ((S ++ G ++ O ++ "/"%char :: R0) ++ [c]) ++ q = S ++ G ++ O ++ "/"%char :: R ++ q).
  { rewrite HR. rewrite <- !app_assoc. reflexivity. }
  rewrite E2.
  assert (Hq0 : match q with [] => True | c0 :: _ => c0 = "/"%char end).
  { destruct q as [|c0 q]; [exact I|]. unfold T in Hq.
    destruct Hrest as [->|[t ->]]; simpl in Hq; [discriminate|]. injection Hq as <- _. reflexivity. }
  rewrite (url_match_at _ (O, R)).
  - cbv iota beta. unfold O, R. rewrite !string_of_list_ascii_of_string. reflexivity.
  - apply url_at_scheme; [exact Hs|].
    apply url_groups_ok; try assumption.
    apply not_slash_Forall, short_ok_Forall_no_slash, Hok_r.
Qed.

Lemma parseRepoInput_url_roundtrip_witness :
  In "https://" ["https://"; "http://"; ""] /\
  parseRepoInput "https://github.com/facebook/react/tree/main" = Some ("facebook", "react").
Proof.
  split; [left; reflexivity|].
  exact (parseRepoInput_url_roundtrip "https://" "facebook" "react" "/tree/main"
           (or_introl eq_refl) ltac:(discriminate) ltac:(simpl; intuition discriminate)
           ltac:(discriminate) ltac:(repeat constructor) (or_intror (ex_intro _ "tree/main" eq_refl))).
Defined.

(** What [parseRepoInput] returns is always usable in a request path:
    the owner and the repository name are non-empty and contain no
    slash. *)
Theorem parseRepoInput_sound (input owner repo : string)
    (H : parseRepoInput input = Some (owner, repo)) :
  owner <> "" /\ repo <> "" /\
  ~ In "/"%char (list_ascii_of_string owner) /\ ~ In "/"%char (list_ascii_of_string repo).
Proof.
  unfold parseRepoInput in H.
  set (t := strip_trailing_slashes (trim (list_ascii_of_string input))) in H.
  assert (Hg : exists g1 g2, owner = string_of_list_ascii g1 /\ repo = string_of_list_ascii g2 /\
                 g1 <> [] /\ g2 <> [] /\ ~ In "/"%char g1 /\ ~ In "/"%char g2).
  { destruct (url_match t) as [[g1 g2]|] eqn:Hu.
    - injection H as <- <-. exists g1, g2. split; [reflexivity|]. split; [reflexivity|].
      destruct (url_match_groups _ _ _ Hu) as (? & ? & ? & ? & _). tauto.
    - destruct (short_match t) as [[g1 g2]|] eqn:Hm; [|discriminate].
      injection H as <- <-. exists g1, g2. split; [reflexivity|]. split; [reflexivity|].
      destruct (short_match_groups _ _ _ Hm) as (? & ? & ? & ? & _). tauto. }
  destruct Hg as (g1 & g2 & -> & -> & H1 & H2 & H3 & H4).
  rewrite !list_ascii_of_string_of_list_ascii.
  split; [apply string_of_nonempty, H1|]. split; [apply string_of_nonempty, H2|]. tauto.
Qed.

Lemma parseRepoInput_sound_witness :
  parseRepoInput "  vercel/next.js/ " = Some ("vercel", "next.js") /\
  "vercel" <> "" /\ "next.js" <> "".
Proof.
  assert (H : parseRepoInput "  vercel/next.js/ " = Some ("vercel", "next.js")) by (vm_compute; reflexivity).
  split; [exact H|].
  destruct (parseRepoInput_sound _ _ _ H) as (H1 & H2 & _). split; assumption.
Defined.

(** [filterCodeFiles] keeps exactly the entries whose extension is one
    that [detectLanguage] maps to a language: a string other than
    "text" (an extension naming an [Object.prototype] member, such as
    [x.constructor], is dropped although [detectLanguage] does not give
    "text" for it), whose path
    contains none of the excluded fragments, and whose size, when known,
    is at most 50000. *)
Theorem filterCodeFiles_kept (tree : list TreeEntry) (e : TreeEntry) :
  In e (filterCodeFiles tree) <->
  In e tree /\ (exists lang, detectLanguage (te_path e) = LStr lang /\ lang <> "text") /\
  Forall (fun frag => includes (list_ascii_of_string (te_path e)) (list_ascii_of_string frag) = false)
    ["__tests__"; ".test."; ".spec."; "node_modules"; ".d.ts"; "dist/"; "build/"] /\
  match te_size e with Some n => n <= 50000 | None => True end.
Proof.
  unfold filterCodeFiles. rewrite filter_In.
  assert (Hk : keep_entry e = true <->
     (exists lang, detectLanguage (te_path e) = LStr lang /\ lang <> "text") /\
     Forall (fun frag => includes (list_ascii_of_string (te_path e)) (list_ascii_of_string frag) = false)
       ["__tests__"; ".test."; ".spec."; "node_modules"; ".d.ts"; "dist/"; "build/"] /\
     match te_size e with Some n => n <= 50000 | None => True end).
  { rewrite !Forall_cons, Forall_nil.
    assert (Hsize : (match te_size e with
                     | Some n => if negb (n =? 0) && (50000 <? n) then false else true
                     | None => true end = true) <->
                    match te_size e with Some n => n <= 50000 | None => True end).
    { destruct (te_size e) as [n|]; [|tauto].
      destruct (Z.eqb_spec n 0); destruct (Z.ltb_spec 50000 n); simpl;
        split; intros; try lia; try discriminate; reflexivity. }
    assert (Hlang : (match detectLanguage (te_path e) with
                     | LStr l => negb (String.eqb l "text")
                     | LProto _ => false end = true) <->
                    exists lang, detectLanguage (te_path e) = LStr lang /\ lang <> "text").
    { destruct (detectLanguage (te_path e)) as [l|m].
      - rewrite negb_true_iff, String.eqb_neq. split.
        + intros H. exists l. split; [reflexivity|exact H].
        + intros [lang [Hl H]]. injection Hl as <-. exact H.
      - split; [discriminate|]. intros [lang [Hl _]]. discriminate. }
    rewrite <- Hsize, <- Hlang.
    rewrite keep_entry_eq, !andb_true_iff, !negb_true_iff. tauto. }
  rewrite Hk. tauto.
Qed.

(** The case the equivalence above accounts for: the extension
    [constructor] reads the inherited member, and the entry is dropped. *)
Lemma filterCodeFiles_drops_proto_member :
  detectLanguage "src/x.constructor" = LProto "constructor" /\
  filterCodeFiles [{| te_path := "src/x.constructor"; te_type := "blob"; te_size := Some 10 |}] = [].
Proof. split; vm_compute; reflexivity. Qed.

(** [fetchFiles] fetches the first [maxFiles] paths and keeps, in path
    order, the files that came back: the batches of eight are invisible
    in the result, which never holds more than [maxFiles] files. *)
Theorem fetchFiles_in_order (fetch_one : string -> string -> string -> option string)
    (owner repo : string) (paths : list string) (maxFiles : nat) :
  fetchFiles fetch_one owner repo paths maxFiles =
    filter_some (map (fetch_path fetch_one owner repo) (take maxFiles paths)) /\
  (length (fetchFiles fetch_one owner repo paths maxFiles) <= maxFiles)%nat.
Proof.
  assert (H : fetchFiles fetch_one owner repo paths maxFiles =
              filter_some (map (fetch_path fetch_one owner repo) (take maxFiles paths))).
  { unfold fetchFiles. rewrite batch_loop_drop by lia. reflexivity. }
  split; [exact H|]. rewrite H.
  etrans; [apply filter_some_length|]. rewrite length_map, length_take. lia.
Qed.

End GitHubClaims.

(* ----------------------------------------------------------------- *)
(** ** Card ids, ranking and the wired pipeline *)

Module GenerateIdFacts.
Import Generate.

Lemma pretty_N_char_not_dash (x : N) : pretty_N_char x <> "-"%char.
Proof. unfold pretty_N_char. repeat case_match; discriminate. Qed.

Lemma pretty_N_go_no_dash (x : N) : forall s,
  ~ In "-"%char (list_ascii_of_string s) -> ~ In "-"%char (list_ascii_of_string (pretty_N_go x s)).
Proof.
  induction (N.lt_wf_0 x) as [x _ IH]; intros s Hs.
  destruct (decide (x = 0%N)) as [->|Hx]; [rewrite pretty_N_go_0; exact Hs|].
  rewrite pretty_N_go_step by lia. apply IH; [apply N.div_lt; lia|].
  simpl. intros [H|H]; [exact (pretty_N_char_not_dash _ H)|exact (Hs H)].
Qed.

Lemma pretty_nat_no_dash (n : nat) : ~ In "-"%char (list_ascii_of_string (pretty n)).
Proof.
  cbv [pretty pretty_nat pretty_N]. destruct (decide (N.of_nat n = 0%N)) as [_|_].
  - simpl. intros [H|H]; [discriminate|exact H].
  - apply pretty_N_go_no_dash. simpl. tauto.
Qed.

Lemma dash_prefix (a b x y : string) :
  ~ In "-"%char (list_ascii_of_string a) -> ~ In "-"%char (list_ascii_of_string b) ->
  String.append a (String "-" x) = String.append b (String "-" y) -> a = b.
Proof.
  revert b. induction a as [|c a IH]; intros [|d b] Ha Hb H; simpl in *.
  - reflexivity.
  - injection H as <- _. exfalso. apply Hb. left. reflexivity.
  - injection H as -> _. exfalso. apply Ha. left. reflexivity.
  - injection H as <- H. f_equal. apply IH; [tauto|tauto|exact H].
Qed.

(** The card id [`gen-${i}-${name}`] determines [i]. *)
Lemma card_id_index (i j : nat) (n m : string) :
  sappend ["gen-"; pretty i; "-"; n] = sappend ["gen-"; pretty j; "-"; m] -> i = j.
Proof.
  unfold sappend. simpl fold_right. intros H.
  apply append_cancel_l in H.
  change (String.append "-" (String.append n "")) with (String "-" (String.append n "")) in H.
  change (String.append "-" (String.append m "")) with (String "-" (String.append m "")) in H.
  apply dash_prefix in H; [|apply pretty_nat_no_dash..].
  apply (inj pretty) in H. exact H.
Qed.

Lemma cards_from_ids (i : nat) (blocks : list ExtractedBlock) (c : CodeCard) :
  In c (cards_from i blocks) ->
  exists k name, (i <= k)%nat /\ id c = sappend ["gen-"; pretty k; "-"; name].
Proof.
  revert i. induction blocks as [|b blocks IH]; intros i; simpl; [tauto|].
  intros [<-|H].
  - exists i, (eb_name b). split; [lia|reflexivity].
  - destruct (IH (S i) H) as [k [name [Hk Hid]]]. exists k, name. split; [lia|exact Hid].
Qed.

Lemma cards_from_NoDup (i : nat) (blocks : list ExtractedBlock) :
  NoDup (map id (cards_from i blocks)).
Proof.
  revert i. induction blocks as [|b blocks IH]; intros i; simpl; [constructor|].
  constructor; [|apply IH].
  rewrite list_elem_of_In, in_map_iff. intros [c [Hc Hin]].
  destruct (cards_from_ids _ _ _ Hin) as [k [name [Hk Hid]]].
  rewrite Hid in Hc. apply card_id_index in Hc. lia.
Qed.

Lemma cards_from_length (i : nat) (blocks : list ExtractedBlock) :
  length (cards_from i blocks) = length blocks.
Proof. revert i. induction blocks; intros i; simpl; [reflexivity|]. f_equal. apply IHblocks. Qed.

End GenerateIdFacts.

Module GenerateIdClaims.
Import Generate GenerateIdFacts.

(** [generateCards] gives every card its own id, even when two blocks
    have the same name (the index in the id tells them apart), and makes
    one card for each of the first [maxCards] blocks. *)
Theorem generateCards_ids_distinct (blocks : list ExtractedBlock) (maxCards : nat) :
  NoDup (map id (generateCards blocks maxCards)) /\
  length (generateCards blocks maxCards) = Nat.min maxCards (length blocks).
Proof.
  unfold generateCards. split; [apply cards_from_NoDup|].
  rewrite cards_from_length, length_take. lia.
Qed.

End GenerateIdClaims.

Module RankIdemFacts.
Import Rank RankFacts.

Lemma sort_by_sorted_id {A : Type} (key : A -> Z) (l : list A) :
  Sorted (fun a b => key a <= key b) l -> sort_by key l = l.
Proof.
  induction l as [|x l IH]; intros Hs; simpl; [reflexivity|].
  apply Sorted_inv in Hs as [Hs Hh]. rewrite (IH Hs).
  destruct l as [|y l]; simpl; [reflexivity|].
  inversion Hh as [|? ? Hxy]; subst.
  destruct (Z.leb_spec (key x) (key y)); [reflexivity|lia].
Qed.

Lemma unique_go_keys (blocks : list ExtractedBlock) : forall seen,
  NoDup (map dedup_key (unique_go seen blocks)) /\
  (forall b, In b (unique_go seen blocks) -> dedup_key b ∉ seen).
Proof.
  induction blocks as [|b blocks IH]; intros seen; simpl; [split; [constructor|tauto]|].
  case_bool_decide as Hin; [apply IH|].
  destruct (IH ({[dedup_key b]} ∪ seen)) as [Hnd Hout].
  split.
  - simpl. constructor; [|exact Hnd].
    rewrite list_elem_of_In, in_map_iff. intros [b' [Hk Hb']].
    apply (Hout b' Hb'). rewrite Hk. set_solver.
  - intros b' [<-|Hb']; [exact Hin|].
    intros Hs. apply (Hout b' Hb'). set_solver.
Qed.

Lemma unique_go_id (blocks : list ExtractedBlock) : forall seen,
  NoDup (map dedup_key blocks) -> (forall b, In b blocks -> dedup_key b ∉ seen) ->
  unique_go seen blocks = blocks.
Proof.
  induction blocks as [|b blocks IH]; intros seen Hnd Hout; simpl; [reflexivity|].
  apply NoDup_cons in Hnd as [Hb Hnd].
  rewrite bool_decide_eq_false_2 by (apply Hout; left; reflexivity).
  f_equal. apply IH; [exact Hnd|].
  intros b' Hb'. rewrite not_elem_of_union, not_elem_of_singleton. split.
  - intros Hk. apply Hb. change (dedup_key b ∈ map dedup_key blocks). rewrite list_elem_of_In, in_map_iff. exists b'. split; [exact Hk|exact Hb'].
  - apply Hout. right. exact Hb'.
Qed.

End RankIdemFacts.

Module RankIdemClaims.
Import Rank RankFacts RankIdemFacts.

(** No two blocks [rankBlocks] returns share a dedup key
    [`${name}:${type}`], and ranking its result again changes nothing. *)
Theorem rankBlocks_idempotent (blocks : list ExtractedBlock) :
  NoDup (map dedup_key (rankBlocks blocks)) /\
  rankBlocks (rankBlocks blocks) = rankBlocks blocks.
Proof.
  assert (Hnd : NoDup (map dedup_key (rankBlocks blocks))).
  { rewrite rankBlocks_sort. rewrite (Permutation_map dedup_key (sort_by_perm _ _)).
    apply (unique_go_keys blocks ∅). }
  split; [exact Hnd|].
  rewrite (rankBlocks_sort (rankBlocks blocks)).
  rewrite (unique_go_id _ ∅ Hnd) by (intros b _; apply not_elem_of_empty).
  apply sort_by_sorted_id. rewrite rankBlocks_sort. apply sort_by_sorted.
Qed.

End RankIdemClaims.

Module WiringFacts.
Import Chars GitHub GitHubFacts.

Lemma parseRepoInput_needs_slash (input : string) :
  ~ In "/"%char (list_ascii_of_string input) -> parseRepoInput input = None.
Proof.
  intros Hno. unfold parseRepoInput.
  set (t := strip_trailing_slashes (trim (list_ascii_of_string input))).
  assert (Ht : ~ In "/"%char t) by (intros H; apply Hno, (trimmed_In _ _ H)).
  destruct (url_match t) as [[g1 g2]|] eqn:Hu.
  { exfalso. destruct (url_match_groups _ _ _ Hu) as (_ & _ & _ & _ & H).
    apply Ht, slash_count_In. lia. }
  destruct (short_match t) as [[g1 g2]|] eqn:Hm; [|reflexivity].
  exfalso. destruct (short_match_groups _ _ _ Hm) as (_ & _ & _ & _ & H).
  apply Ht, slash_count_In. exact H.
Qed.

End WiringFacts.

Module WiringClaims.
Import Ingest Wiring WiringFacts GenerateIdFacts.

(** An input without any slash is rejected by [ingestRepo] with "Invalid
    repo format. Use owner/repo or a GitHub URL.", before any request. *)
Theorem ingestRepo_rejects_input_without_slash {RepoMeta : Type}
    (defaultBranch : RepoMeta -> string) (fetchRepo : string -> string -> Result RepoMeta)
    (fetchTree : string -> string -> string -> Result (list GitHub.TreeEntry))
    (fetch_one : string -> string -> string -> option string)
    (extractPython extractRust extractGo extractSwift :
       string -> Extract.FileContent -> list ExtractedBlock)
    (extractTS : string -> Extract.FileContent -> LangValue -> list ExtractedBlock)
    (input : string) (Hno : ~ In "/"%char (list_ascii_of_string input)) :
  ingestRepo_github defaultBranch fetchRepo fetchTree fetch_one
    extractPython extractRust extractGo extractSwift extractTS input =
  Err "Invalid repo format. Use owner/repo or a GitHub URL.".
Proof.
  unfold ingestRepo_github, ingestRepo. rewrite (parseRepoInput_needs_slash _ Hno). reflexivity.
Qed.

Lemma ingestRepo_rejects_input_without_slash_witness :
  ~ In "/"%char (list_ascii_of_string "react") /\
  demo_ingest "react" = Err "Invalid repo format. Use owner/repo or a GitHub URL.".
Proof.
  assert (H : ~ In "/"%char (list_ascii_of_string "react")) by (simpl; intuition discriminate).
  split; [exact H|].
  exact (ingestRepo_rejects_input_without_slash _ _ _ _ _ _ _ _ _ "react" H).
Defined.

(** A successful ingestion parsed the input into an owner and a
    repository name, got the metadata for exactly them, and returns
    between 1 and 50 cards with pairwise distinct ids. *)
Theorem ingestRepo_success {RepoMeta : Type}
    (defaultBranch : RepoMeta -> string) (fetchRepo : string -> string -> Result RepoMeta)
    (fetchTree : string -> string -> string -> Result (list GitHub.TreeEntry))
    (fetch_one : string -> string -> string -> option string)
    (extractPython extractRust extractGo extractSwift :
       string -> Extract.FileContent -> list ExtractedBlock)
    (extractTS : string -> Extract.FileContent -> LangValue -> list ExtractedBlock)
    (input : string) (meta : RepoMeta) (cards : list CodeCard)
    (H : ingestRepo_github defaultBranch fetchRepo fetchTree fetch_one
           extractPython extractRust extractGo extractSwift extractTS input = Ok (meta, cards)) :
  exists owner repo,
    GitHub.parseRepoInput input = Some (owner, repo) /\ fetchRepo owner repo = Ok meta /\
    (1 <= length cards <= 50)%nat /\ NoDup (map id cards).
Proof.
  unfold ingestRepo_github, ingestRepo in H.
  destruct (GitHub.parseRepoInput input) as [[owner repo]|]; [|discriminate].
  exists owner, repo. split; [reflexivity|].
  destruct (fetchRepo owner repo) as [m|e]; [|discriminate].
  destruct (fetchTree owner repo (defaultBranch m)) as [tree|e]; [|discriminate].
  destruct (GitHub.filterCodeFiles tree) as [|f fs]; [discriminate|].
  destruct (Rank.rankBlocks _) as [|b rest]; [discriminate|].
  injection H as <- <-. split; [reflexivity|].
  unfold Generate.generateCards. split; [|apply cards_from_NoDup].
  rewrite cards_from_length, length_take. unfold Generate.MAX_CARDS. simpl length. lia.
Qed.

Lemma ingestRepo_success_witness :
  demo_ingest "vercel/next.js" = Ok (tt, demo_cards) /\ (1 <= length demo_cards <= 50)%nat.
Proof.
  assert (H : demo_ingest "vercel/next.js" = Ok (tt, demo_cards)) by (vm_compute; reflexivity).
  split; [exact H|].
  destruct (ingestRepo_success _ _ _ _ _ _ _ _ _ _ _ _ H) as (o & r & _ & _ & Hl & _).
  exact Hl.
Defined.

End WiringClaims.

(* ----------------------------------------------------------------- *)
(** ** Doc comments and Python blocks *)

Module DocFacts.
Import Chars Generate GitHub GitHubFacts Doc.

Lemma split_on_nonempty (sep : ascii) (s : list ascii) : split_on sep s <> [].
Proof.
  induction s as [|c s IH]; simpl; [discriminate|].
  destruct (Ascii.eqb c sep); [discriminate|].
  destruct (split_on sep s); [contradiction|discriminate].
Qed.

Lemma split_on_pieces (sep : ascii) (s w : list ascii) :
  In w (split_on sep s) -> ~ In sep w.
Proof.
  revert w. induction s as [|c s IH]; intros w; simpl.
  - intros [<-|[]]. simpl. tauto.
  - destruct (Ascii.eqb c sep) eqn:Hc.
    + intros [<-|H]; [simpl; tauto|exact (IH w H)].
    + destruct (split_on sep s) as [|w0 ws] eqn:Hs; [exfalso; exact (split_on_nonempty sep s Hs)|].
      intros [<-|H].
      * simpl. intros [Hcs|Hin]; [subst; rewrite Ascii.eqb_refl in Hc; discriminate|].
        apply (IH w0); [left; reflexivity|exact Hin].
      * apply IH. right. exact H.
Qed.

Lemma join_cons (sep w : list ascii) (ws : list (list ascii)) :
  join sep (w :: ws) = w ++ match ws with [] => [] | _ => sep ++ join sep ws end.
Proof. destruct ws; simpl; [rewrite app_nil_r|]; reflexivity. Qed.

Lemma join_cons_cons (sep : list ascii) (c : ascii) (w : list ascii) ws :
  join sep ((c :: w) :: ws) = c :: join sep (w :: ws).
Proof. destruct ws; reflexivity. Qed.

Lemma join_split (sep : ascii) (s : list ascii) : join [sep] (split_on sep s) = s.
Proof.
  induction s as [|c s IH]; cbn [split_on]; [reflexivity|].
  destruct (Ascii.eqb c sep) eqn:Hc.
  - apply Ascii.eqb_eq in Hc. subst c.
    destruct (split_on sep s) eqn:Hs; [exfalso; exact (split_on_nonempty sep s Hs)|].
    change (join [sep] ([] :: l :: l0)) with ([sep] ++ join [sep] (l :: l0)).
    rewrite IH. reflexivity.
  - destruct (split_on sep s) as [|w ws] eqn:Hs; [exfalso; exact (split_on_nonempty sep s Hs)|].
    rewrite join_cons_cons, IH. reflexivity.
Qed.

Lemma split_on_single (sep : ascii) (s : list ascii) : ~ In sep s -> split_on sep s = [s].
Proof.
  induction s as [|c s IH]; simpl; intros H; [reflexivity|].
  destruct (Ascii.eqb c sep) eqn:Hc; [apply Ascii.eqb_eq in Hc; tauto|].
  rewrite IH by tauto. reflexivity.
Qed.

Lemma split_on_two (sep : ascii) (s : list ascii) :
  In sep s -> exists w1 w2 ws, split_on sep s = w1 :: w2 :: ws.
Proof.
  induction s as [|c s IH]; simpl; [tauto|]. intros H.
  destruct (Ascii.eqb c sep) eqn:Hc.
  - destruct (split_on sep s) as [|w ws] eqn:Hs; [exfalso; exact (split_on_nonempty sep s Hs)|].
    eauto.
  - destruct H as [H|H]; [subst; rewrite Ascii.eqb_refl in Hc; discriminate|].
    destruct (IH H) as (w1 & w2 & ws & ->). eauto.
Qed.

Lemma join_without (sep c : ascii) (ws : list (list ascii)) :
  c <> sep -> (forall w, In w ws -> ~ In c w) -> ~ In c (join [sep] ws).
Proof.
  intros Hcs. induction ws as [|w ws IH]; intros Hw; [simpl; tauto|].
  rewrite join_cons. intros Hin. apply in_app_or in Hin as [Hin|Hin].
  - exact (Hw w (or_introl eq_refl) Hin).
  - destruct ws as [|w' ws']; [exact Hin|].
    simpl in Hin. destruct Hin as [Hin|Hin]; [congruence|].
    apply IH; [intros w0 H0; apply Hw; right; exact H0|exact Hin].
Qed.

Lemma trim_start_suffix (s : list ascii) : exists j, s = j ++ trim_start s.
Proof.
  induction s as [|c s IH]; simpl; [exists []; reflexivity|].
  destruct (is_js_space c); [destruct IH as [j Hj]; exists (c :: j); simpl; f_equal; exact Hj|].
  exists []; reflexivity.
Qed.

Lemma trim_end_prefix (s : list ascii) : exists b, s = trim_end s ++ b.
Proof.
  unfold trim_end. destruct (trim_start_suffix (rev s)) as [j Hj].
  exists (rev j). rewrite <- rev_app_distr, <- Hj, rev_involutive. reflexivity.
Qed.

Lemma trim_infix (s : list ascii) : exists a b, s = a ++ trim s ++ b.
Proof.
  unfold trim. destruct (trim_start_suffix s) as [a Ha].
  destruct (trim_start_suffix (rev (trim_start s))) as [j Hj].
  exists a, (rev j). rewrite <- rev_app_distr, <- Hj, rev_involutive. exact Ha.
Qed.

Lemma In_infix (x : ascii) (a s b : list ascii) : In x s -> In x (a ++ s ++ b).
Proof. intros H. apply in_or_app. right. apply in_or_app. left. exact H. Qed.

Lemma strip_star_suffix (l : list ascii) : exists j, l = j ++ strip_star l.
Proof.
  unfold strip_star. destruct (trim_start_suffix l) as [j Hj].
  destruct (trim_start l) as [|c l2] eqn:Ht; [exists []; reflexivity|].
  destruct (Ascii.eqb_spec c "*"%char) as [->|Hne].
  - destruct l2 as [|d l3].
    + exists l. rewrite app_nil_r. reflexivity.
    + destruct (is_js_space d).
      * exists (j ++ ["*"%char; d]). rewrite Hj, <- app_assoc. reflexivity.
      * exists (j ++ ["*"%char]). rewrite Hj, <- app_assoc. reflexivity.
  - exists []. destruct c as [b0 b1 b2 b3 b4 b5 b6 b7];
      destruct b0, b1, b2, b3, b4, b5, b6, b7; try reflexivity; exfalso; apply Hne; reflexivity.
Qed.

Lemma clean_doc_single_line (g : list ascii) : ~ In "010"%char (clean_doc g).
Proof.
  unfold clean_doc. apply join_without; [discriminate|].
  intros w Hw. apply filter_In in Hw as [Hw _]. apply in_map_iff in Hw as [l [<- Hl]].
  intros Hin. apply (split_on_pieces "010"%char g l Hl).
  destruct (trim_infix (strip_star l)) as [a [b Hab]].
  destruct (strip_star_suffix l) as [j Hj].
  rewrite Hj, Hab. apply in_or_app. right. apply In_infix. exact Hin.
Qed.

Lemma join_app_prefix (sep : list ascii) (ls1 k : list (list ascii)) :
  ls1 <> [] -> exists t, join sep (ls1 ++ k) = join sep ls1 ++ t.
Proof.
  intros Hne. induction ls1 as [|w ls IH]; [contradiction|].
  destruct ls as [|w' ls'].
  - change ([w] ++ k) with (w :: k). rewrite join_cons. eexists. reflexivity.
  - destruct IH as [t Ht]; [discriminate|].
    exists t. change ((w' :: ls') ++ k) with (w' :: (ls' ++ k)) in Ht.
    change (join sep ((w :: w' :: ls') ++ k)) with (w ++ sep ++ join sep (w' :: (ls' ++ k))).
    change (join sep (w :: w' :: ls')) with (w ++ sep ++ join sep (w' :: ls')).
    rewrite Ht, !app_assoc. reflexivity.
Qed.

Lemma indent_loop_prefix (base : nat) (lines : list (list ascii)) :
  exists k, lines = indent_loop base lines ++ k.
Proof.
  induction lines as [|line rest IH]; simpl; [exists []; reflexivity|].
  destruct IH as [k Hk].
  destruct (trim line); [exists k; simpl; f_equal; exact Hk|].
  destruct (Nat.ltb (indent line) base); [exists (line :: rest); reflexivity|].
  exists k. simpl. f_equal. exact Hk.
Qed.

Lemma trim_start_idem (s : list ascii) : trim_start (trim_start s) = trim_start s.
Proof.
  induction s as [|c s IH]; simpl; [reflexivity|].
  destruct (is_js_space c) eqn:Hc; [exact IH|]. simpl. rewrite Hc. reflexivity.
Qed.

Lemma trim_start_app (x y : list ascii) :
  trim_start x <> [] -> trim_start (x ++ y) = trim_start x ++ y.
Proof.
  induction x as [|c x IH]; simpl; [tauto|].
  destruct (is_js_space c); [exact IH|reflexivity].
Qed.

Lemma prefixb_mono (p x y : list ascii) : prefixb p x = true -> prefixb p (x ++ y) = true.
Proof.
  intros H. destruct (GenerateFacts.prefixb_app p x H) as [r ->].
  rewrite <- app_assoc. apply prefixb_self.
Qed.

Lemma prefixb_long (p x y : list ascii) :
  (length p <= length x)%nat -> prefixb p (x ++ y) = prefixb p x.
Proof.
  revert x. induction p as [|a p IH]; intros [|b x] H; simpl in *; try reflexivity; [lia|].
  rewrite IH by lia. reflexivity.
Qed.

Lemma jsdoc_match_eq (s : list ascii) :
  jsdoc_match s =
  match (if prefixb (list_ascii_of_string "/**") s then jsdoc_body (drop 3 s) else None) with
  | Some g => Some g
  | None => match s with [] => None | _ :: s' => jsdoc_match s' end
  end.
Proof. destruct s; reflexivity. Qed.

Lemma jsdoc_match_some (s g : list ascii) :
  jsdoc_match s = Some g -> exists p r, s = p ++ r /\ jsdoc_body r = Some g.
Proof.
  induction s as [|c s IH]; intros H; rewrite jsdoc_match_eq in H.
  - discriminate.
  - destruct (if prefixb (list_ascii_of_string "/**") (c :: s)
              then jsdoc_body (drop 3 (c :: s)) else None) as [g0|] eqn:E.
    + injection H as <-. destruct (prefixb _ _); [|discriminate].
      exists (take 3 (c :: s)), (drop 3 (c :: s)). split; [symmetry; apply take_drop|exact E].
    + destruct (IH H) as (p & r & -> & Hr). exists (c :: p), r. split; [reflexivity|exact Hr].
Qed.

Lemma jsdoc_match_skip (pre t : list ascii) :
  includes (pre ++ ["/"%char; "*"%char]) (list_ascii_of_string "/**") = false ->
  jsdoc_match (pre ++ "/"%char :: "*"%char :: t) = jsdoc_match ("/"%char :: "*"%char :: t).
Proof.
  induction pre as [|c pre IH]; intros H; [reflexivity|].
  rewrite <- app_comm_cons, jsdoc_match_eq.
  assert (H' : prefixb (list_ascii_of_string "/**") (c :: pre ++ ["/"%char; "*"%char])
               || includes (pre ++ ["/"%char; "*"%char]) (list_ascii_of_string "/**") = false)
    by exact H.
  apply orb_false_iff in H' as [H1 H2].
  replace (c :: pre ++ "/"%char :: "*"%char :: t)
    with ((c :: pre ++ ["/"%char; "*"%char]) ++ t) by (simpl; rewrite <- app_assoc; reflexivity).
  rewrite prefixb_long by (simpl; rewrite length_app; simpl; lia).
  rewrite H1. cbn iota.
  replace ((c :: pre ++ ["/"%char; "*"%char]) ++ t) with (c :: pre ++ "/"%char :: "*"%char :: t)
    by (simpl; rewrite <- app_assoc; reflexivity).
  exact (IH H2).
Qed.

Lemma jsdoc_body_close (m : list ascii) : jsdoc_body (m ++ ["*"%char; "/"%char]) = Some (trim m).
Proof.
  unfold jsdoc_body. rewrite rev_app_distr. simpl. rewrite rev_involutive. reflexivity.
Qed.

Lemma jsdoc_match_closed (before g : list ascii) :
  trim_start (rev before) = rev before ->
  jsdoc_match before = Some g -> exists pre, before = pre ++ ["*"%char; "/"%char].
Proof.
  intros Htr H. destruct (jsdoc_match_some before g H) as (p & r & Hpr & Hr).
  unfold jsdoc_body in Hr.
  destruct (trim_start (rev r)) as [|a l] eqn:Ht; [discriminate|].
  destruct (Ascii.eqb_spec a "/"%char) as [->|Ha];
    [|destruct a as [[] [] [] [] [] [] [] []]; try discriminate; congruence].
  destruct l as [|b rm]; [discriminate|].
  destruct (Ascii.eqb_spec b "*"%char) as [->|Hb];
    [|destruct b as [[] [] [] [] [] [] [] []]; try discriminate; congruence].
  assert (Hrev : rev before = "/"%char :: "*"%char :: rm ++ rev p).
  { rewrite <- Htr, Hpr, rev_app_distr, trim_start_app, Ht by (rewrite Ht; discriminate).
    reflexivity. }
  exists (rev (rm ++ rev p)).
  rewrite <- (rev_involutive before), Hrev. simpl. rewrite <- app_assoc. reflexivity.
Qed.

Lemma rust_doc_line_single (line m : list ascii) :
  rust_doc_line line = Some m -> ~ In "010"%char m.
Proof.
  unfold rust_doc_line. destruct (prefixb _ _); [|discriminate].
  intros H. injection H as <-. intros Hin.
  apply take_while_In in Hin as [_ Hn]. discriminate.
Qed.

Lemma rust_doc_lines_In (ls : list (list ascii)) (m : list ascii) :
  In m (rust_doc_lines ls) -> exists line, rust_doc_line line = Some m.
Proof.
  induction ls as [|line ls IH]; simpl; [tauto|].
  destruct (rust_doc_line line) as [m0|] eqn:E; [|simpl; tauto].
  intros Hin. apply in_app_or in Hin as [Hin|[<-|[]]]; [exact (IH Hin)|eauto].
Qed.

Lemma up_to_close_eq (r : list ascii) :
  up_to_close r =
  if prefixb triple_quote r then Some []
  else match r with
       | [] => None
       | c :: r' => match up_to_close r' with Some g => Some (c :: g) | None => None end
       end.
Proof. destruct r; reflexivity. Qed.

Lemma trim_start_spaces (j x : list ascii) :
  Forall (fun c => is_js_space c = true) j -> trim_start (j ++ x) = trim_start x.
Proof.
  induction j as [|c j IH]; intros H; [reflexivity|].
  apply Forall_cons in H as [Hc Hj]. simpl. rewrite Hc. exact (IH Hj).
Qed.

Lemma trim_start_split (s : list ascii) :
  exists j, Forall (fun c => is_js_space c = true) j /\ s = j ++ trim_start s.
Proof.
  induction s as [|c s IH]; simpl; [exists []; split; [constructor|reflexivity]|].
  destruct (is_js_space c) eqn:Hc.
  - destruct IH as [j [Hj Hs]]. exists (c :: j). split; [constructor; assumption|].
    simpl. f_equal. exact Hs.
  - exists []. split; [constructor|reflexivity].
Qed.

(** [up_to_close] stops at the first closing triple quote: no triple
    quote starts inside the text before it. *)
Lemma up_to_close_first (r g : list ascii) :
  up_to_close r = Some g ->
  exists b, r = g ++ triple_quote ++ b /\
            includes (g ++ ["034"%char; "034"%char]) triple_quote = false.
Proof.
  revert g. induction r as [|c r IH]; intros g H; rewrite up_to_close_eq in H.
  - discriminate.
  - destruct (prefixb triple_quote (c :: r)) eqn:Hp.
    + injection H as <-. destruct (GenerateFacts.prefixb_app _ _ Hp) as [b Hb].
      exists b. split; [exact Hb|reflexivity].
    + destruct (up_to_close r) as [g'|]; [|discriminate]. injection H as <-.
      destruct (IH g' eq_refl) as [b [Hb Hinc]].
      exists b. split; [rewrite Hb; reflexivity|].
      change (prefixb triple_quote (c :: g' ++ ["034"%char; "034"%char])
              || includes (g' ++ ["034"%char; "034"%char]) triple_quote = false).
      rewrite Hinc, orb_false_r.
      destruct (prefixb triple_quote (c :: g' ++ ["034"%char; "034"%char])) eqn:Hq; [|reflexivity].
      assert (Hy := prefixb_mono _ _ ["034"%char] Hq).
      replace ((c :: g' ++ ["034"%char; "034"%char]) ++ ["034"%char]) with
        (c :: g' ++ triple_quote) in Hy by (simpl; rewrite <- app_assoc; reflexivity).
      assert (Hz := prefixb_mono _ _ b Hy).
      rewrite <- app_comm_cons, <- app_assoc, <- Hb in Hz. congruence.
Qed.

Lemma up_to_close_at (g b : list ascii) :
  includes (g ++ ["034"%char; "034"%char]) triple_quote = false ->
  up_to_close (g ++ triple_quote ++ b) = Some g.
Proof.
  induction g as [|c g IH]; intros H; rewrite up_to_close_eq.
  - rewrite app_nil_l, prefixb_self. reflexivity.
  - assert (H' : prefixb triple_quote (c :: g ++ ["034"%char; "034"%char])
                 || includes (g ++ ["034"%char; "034"%char]) triple_quote = false) by exact H.
    apply orb_false_iff in H' as [H1 H2].
    replace ((c :: g) ++ triple_quote ++ b) with
      ((c :: g ++ ["034"%char; "034"%char]) ++ "034"%char :: b)
      by (simpl; rewrite <- app_assoc; reflexivity).
    rewrite prefixb_long by (simpl; rewrite length_app; simpl; lia).
    rewrite H1.
    replace ((c :: g ++ ["034"%char; "034"%char]) ++ "034"%char :: b) with
      (c :: g ++ triple_quote ++ b) by (simpl; rewrite <- app_assoc; reflexivity).
    rewrite (IH H2). reflexivity.
Qed.

End DocFacts.

Module DocClaims.
Import Chars Generate GitHub GitHubFacts Doc DocFacts.

(** [extractIndentBlock] gives [null] exactly when the text from
    [startIdx] on has no line break; otherwise what it returns is a
    prefix of that text. *)
Theorem extractIndentBlock_prefix (source : list ascii) (startIdx : nat) :
  match extractIndentBlock source startIdx with
  | None => ~ In "010"%char (drop startIdx source)
  | Some b => In "010"%char (drop startIdx source) /\ exists rest, drop startIdx source = b ++ rest
  end.
Proof.
  unfold extractIndentBlock.
  set (s := drop startIdx source).
  destruct (in_dec ascii_dec "010"%char s) as [Hin|Hno].
  - destruct (split_on_two _ _ Hin) as (l0 & l1 & ws & Hs). rewrite Hs.
    cbv iota zeta beta.
    assert (Hj : s = join ["010"%char] (l0 :: l1 :: ws))
      by (rewrite <- Hs; symmetry; apply join_split).
    destruct (Nat.eqb (indent l1) 0); cbv iota; (split; [exact Hin|]); rewrite Hj.
    + rewrite join_cons. eexists. reflexivity.
    + destruct (indent_loop_prefix (indent l1) (l1 :: ws)) as [k Hk].
      destruct (join_app_prefix ["010"%char] (l0 :: indent_loop (indent l1) (l1 :: ws)) k)
        as [t Ht]; [discriminate|].
      destruct (trim_end_prefix (join ["010"%char] (l0 :: indent_loop (indent l1) (l1 :: ws))))
        as [b Hb].
      exists (b ++ t). rewrite Hk at 1. rewrite app_comm_cons, Ht, Hb at 1.
      rewrite <- app_assoc. reflexivity.
  - rewrite (split_on_single _ _ Hno). cbv iota. exact Hno.
Qed.

(** When [findJsDoc] finds a comment, the trimmed 500 characters before
    [pos] end in the closing [*/], and the text it returns is on one
    line: the comment's lines are joined with spaces. *)
Theorem findJsDoc_some_shape (source : list ascii) (pos : nat) :
  match findJsDoc source pos with
  | Some d => (exists pre, trim_end (window source pos) = pre ++ ["*"%char; "/"%char])
              /\ ~ In "010"%char d
  | None => True
  end.
Proof.
  unfold findJsDoc.
  destruct (jsdoc_match (trim_end (window source pos))) as [g|] eqn:E; [|exact I].
  split; [|apply clean_doc_single_line].
  apply (jsdoc_match_closed _ g); [|exact E].
  unfold trim_end. rewrite rev_involutive. apply trim_start_idem.
Qed.

(** [findJsDoc] starts at the first [/**] of the trimmed window: when
    that window is [pre], then [/**], then [m], then [*/], and no [/**]
    starts inside [pre], the doc is the cleaned text of [m], even when
    [m] holds the end of that comment and further comments. *)
Theorem findJsDoc_first_comment (source : list ascii) (pos : nat) (pre m : list ascii)
  (Hb : trim_end (window source pos)
        = pre ++ list_ascii_of_string "/**" ++ m ++ ["*"%char; "/"%char])
  (Hfirst : includes (pre ++ ["/"%char; "*"%char]) (list_ascii_of_string "/**") = false) :
  findJsDoc source pos = Some (clean_doc (trim m)).
Proof.
  unfold findJsDoc. rewrite Hb.
  change (list_ascii_of_string "/**" ++ m ++ ["*"%char; "/"%char])
    with ("/"%char :: "*"%char :: ("*"%char :: m ++ ["*"%char; "/"%char])).
  rewrite (jsdoc_match_skip pre _ Hfirst), jsdoc_match_eq.
  change ("/"%char :: "*"%char :: "*"%char :: m ++ ["*"%char; "/"%char])
    with (list_ascii_of_string "/**" ++ (m ++ ["*"%char; "/"%char])).
  rewrite prefixb_self, (drop_app_length' (list_ascii_of_string "/**") _ 3 eq_refl).
  rewrite jsdoc_body_close. reflexivity.
Qed.

Lemma findJsDoc_first_comment_witness :
  trim_end (window (list_ascii_of_string ("/** a */ /** b */" ++ String "010" "function f() {}")) 18)
    = [] ++ list_ascii_of_string "/**" ++ list_ascii_of_string " a */ /** b " ++ ["*"%char; "/"%char]
  /\ includes ([] ++ ["/"%char; "*"%char]) (list_ascii_of_string "/**") = false
  /\ findJsDoc (list_ascii_of_string ("/** a */ /** b */" ++ String "010" "function f() {}")) 18
     = Some (clean_doc (trim (list_ascii_of_string " a */ /** b ")))
  /\ clean_doc (trim (list_ascii_of_string " a */ /** b ")) = list_ascii_of_string "a */ /** b".
Proof.
  split; [vm_compute; reflexivity|].
  split; [vm_compute; reflexivity|].
  split; [|vm_compute; reflexivity].
  apply (findJsDoc_first_comment _ 18 [] (list_ascii_of_string " a */ /** b "));
    vm_compute; reflexivity.
Defined.

(** [findRustDoc] gives [null] exactly when the last line of the
    trimmed window before [pos] is not a [///] line, and the doc it
    returns, the run of [///] lines joined with spaces, is on one line. *)
Theorem findRustDoc_shape (source : list ascii) (pos : nat) :
  (findRustDoc source pos = None <->
   rust_doc_line (List.last (split_on "010"%char (trim_end (window source pos))) []) = None)
  /\ match findRustDoc source pos with Some d => ~ In "010"%char d | None => True end.
Proof.
  unfold findRustDoc.
  set (ls := split_on "010"%char (trim_end (window source pos))).
  destruct (exists_last (split_on_nonempty "010"%char (trim_end (window source pos))))
    as (ls' & x & Hx).
  fold ls in Hx. rewrite Hx, last_last, rev_app_distr. change (rev [x]) with [x]. cbn [app].
  split.
  - simpl rust_doc_lines. destruct (rust_doc_line x) as [m|]; [|tauto].
    destruct (rust_doc_lines (rev ls') ++ [m]) eqn:E; [|split; discriminate].
    exfalso. destruct (rust_doc_lines (rev ls')); discriminate.
  - destruct (rust_doc_lines (x :: rev ls')) as [|w ws] eqn:E; [exact I|].
    apply join_without; [discriminate|].
    intros w0 Hw0. rewrite <- E in Hw0.
    destruct (rust_doc_lines_In _ _ Hw0) as [line Hl].
    exact (rust_doc_line_single _ _ Hl).
Qed.

(** [findPyDocstring] finds a docstring exactly when the 500
    characters after [defEnd] are white space, a triple quote, a text
    [g] in which no triple quote starts before the closing one, that
    closing triple quote and anything after it; the docstring is then
    [g] trimmed, so it ends at the first closing triple quote. *)
Theorem findPyDocstring_first_close (source : list ascii) (defEnd : nat) (d : list ascii) :
  findPyDocstring source defEnd = Some d <->
  exists ws g b,
    take 500 (drop defEnd source) = ws ++ triple_quote ++ g ++ triple_quote ++ b /\
    Forall (fun c => is_js_space c = true) ws /\
    includes (g ++ ["034"%char; "034"%char]) triple_quote = false /\
    d = trim g.
Proof.
  unfold findPyDocstring.
  set (after := take 500 (drop defEnd source)).
  split.
  - destruct (prefixb triple_quote (trim_start after)) eqn:Hp; [|discriminate].
    destruct (up_to_close (drop 3 (trim_start after))) as [g|] eqn:Hu; [|discriminate].
    intros H. injection H as <-.
    destruct (up_to_close_first _ _ Hu) as [b [Hb Hinc]].
    destruct (trim_start_split after) as [ws [Hws Hs]].
    destruct (GenerateFacts.prefixb_app _ _ Hp) as [r Hr].
    exists ws, g, b. split; [|split; [exact Hws|split; [exact Hinc|reflexivity]]].
    rewrite Hs, Hr. f_equal. f_equal.
    rewrite Hr in Hb. exact Hb.
  - intros (ws & g & b & Hafter & Hws & Hinc & ->).
    rewrite Hafter, trim_start_spaces by exact Hws.
    assert (Ht : trim_start (triple_quote ++ g ++ triple_quote ++ b)
                 = triple_quote ++ g ++ triple_quote ++ b) by reflexivity.
    rewrite Ht, prefixb_self.
    change (drop 3 (triple_quote ++ g ++ triple_quote ++ b)) with (g ++ triple_quote ++ b).
    rewrite (up_to_close_at g b Hinc). reflexivity.
Qed.

End DocClaims.
